(** * Crawl engines and browser pool of the scraper: model and properties

    The first part embeds the code:

    - [Url]: the pieces of [urllib.parse] and of [str] that the crawlers
      call ([urlparse], [startswith], [endswith], [in]);
    - [Web]: the browser as a crawl job sees it;
    - [Crawler]: the queue-driven [WebCrawler] of [crawler.py], together
      with the settings dictionary [app_simple.py] builds for it;
    - [Service]: the recursive [WebCrawler] of
      [app/services/scraping_service.py], together with the settings
      dictionary [scrape_with_selenium] builds for it;
    - [Pool]: [BrowserPool] of [app/core/browser.py];
    - [Sites]: a few small sites for the worked examples.

    The Selenium driver and the library functions whose result the code
    only passes on ([urlparse], [urljoin], [re.search]) are the fields of
    an environment [Web.Env]; the general theorems hold for every
    environment.  A site is taken to answer a given URL the same way
    each time it is loaded.

    The second part states and proves the properties. *)

From Stdlib Require Import ZArith String Ascii List Bool Lia.
From stdpp Require Import gmap strings list.

Local Open Scope Z_scope.

(** ** URL and string helpers *)

Module Url.

(** The fields of [urlparse(url)] the crawlers read. *)
Record ParseResult := mkParse {
  scheme : string;
  netloc : string;
  path : string
}.

(** [s.startswith(p)] *)
Definition startswith (s p : string) : bool := String.prefix p s.

(** [s.endswith(p)] *)
Fixpoint endswith (s p : string) : bool :=
  if String.eqb s p then true
  else match s with
       | EmptyString => false
       | String _ s' => endswith s' p
       end.

(** [p in s] on strings: [p] occurs as a contiguous substring of [s]. *)
Fixpoint str_in (p s : string) : bool :=
  if String.prefix p s then true
  else match s with
       | EmptyString => false
       | String _ s' => str_in p s'
       end.

(** [x in l] on a list of strings. *)
Definition in_list (x : string) (l : list string) : bool :=
  existsb (String.eqb x) l.

(** *** A concrete [urlparse]

    [urlsplit] of CPython restricted to the three fields above, for
    URLs without leading blanks, without [;] parameters and without a
    bracketed host: the scheme is the text before the first [:] when it
    is a letter followed by letters, digits, [+], [-] or [.]; the
    network location is what follows a leading [//] up to the first of
    [/], [?], [#]; the path ends at the first [?] or [#]. *)

Definition is_alpha (c : ascii) : bool :=
  let n := N_of_ascii c in
  ((65 <=? n) && (n <=? 90) || (97 <=? n) && (n <=? 122))%N.

Definition is_scheme_char (c : ascii) : bool :=
  let n := N_of_ascii c in
  (is_alpha c || (48 <=? n) && (n <=? 57)
   || (n =? 43) || (n =? 45) || (n =? 46))%N.

Definition lower (c : ascii) : ascii :=
  let n := N_of_ascii c in
  if ((65 <=? n) && (n <=? 90))%N then ascii_of_N (n + 32) else c.

Fixpoint lower_str (s : string) : string :=
  match s with
  | EmptyString => EmptyString
  | String c s' => String (lower c) (lower_str s')
  end.

Fixpoint all_chars (p : ascii -> bool) (s : string) : bool :=
  match s with
  | EmptyString => true
  | String c s' => p c && all_chars p s'
  end.

(** Splits [s] before the first character satisfying [p]. *)
Fixpoint break (p : ascii -> bool) (s : string) : string * string :=
  match s with
  | EmptyString => (EmptyString, EmptyString)
  | String c s' =>
      if p c then (EmptyString, s)
      else let '(a, b) := break p s' in (String c a, b)
  end.

Definition is_colon (c : ascii) : bool := (N_of_ascii c =? 58)%N.
Definition is_netloc_end (c : ascii) : bool :=
  let n := N_of_ascii c in ((n =? 47) || (n =? 63) || (n =? 35))%N.
Definition is_path_end (c : ascii) : bool :=
  let n := N_of_ascii c in ((n =? 63) || (n =? 35))%N.

Definition split_scheme (url : string) : string * string :=
  match break is_colon url with
  | (String c pre, String _ rest) =>
      if is_alpha c && all_chars is_scheme_char pre
      then (lower_str (String c pre), rest)
      else (EmptyString, url)
  | _ => (EmptyString, url)
  end.

Definition urlparse (url : string) : ParseResult :=
  let '(sch, rest) := split_scheme url in
  let '(loc, rest') :=
    match rest with
    | String "/" (String "/" r) => break is_netloc_end r
    | _ => (EmptyString, rest)
    end in
  mkParse sch loc (fst (break is_path_end rest')).

(** [urljoin(base, href)] when [href] is already absolute, which is
    what the [href] property of an anchor element holds. *)
Definition urljoin_absolute (base href : string) : string := href.

(** [re.search(pattern, url)] for a pattern without metacharacters. *)
Definition re_search_literal (pattern url : string) : bool :=
  str_in pattern url.

End Url.

(** ** The browser as the crawlers see it *)

Module Web.

(** What the driver exposes once [driver.get(url)] has returned: the
    title, the two description meta tags folded into one string, the text
    of [body], the [href] of every [a] element in document order (the
    empty string when the attribute is missing) and the numbers of
    [img], [form] and [script] elements. *)
Record Page := mkPage {
  title : string;
  description : string;
  body_text : string;
  anchors : list string;
  images : nat;
  forms : nat;
  scripts : nat
}.

(** The environment of a crawl job.  [driver url = None] stands for a
    load of [url] during which [driver.get] or the extraction of the page
    raised ([TimeoutException], [WebDriverException], a missing [body]).
    [urlparse], [urljoin] and [re_search] are the library functions of
    the same names. *)
Record Env := mkEnv {
  urlparse : string -> Url.ParseResult;
  urljoin : string -> string -> string;
  re_search : string -> string -> bool;
  driver : string -> option Page
}.

(** [urlparse(url).netloc] *)
Definition get_domain (e : Env) (url : string) : string :=
  Url.netloc (urlparse e url).

(** [f"{parsed.scheme}://{parsed.netloc}{parsed.path}"] *)
Definition normalize_url (e : Env) (url : string) : string :=
  let parsed := urlparse e url in
  Url.scheme parsed +:+ "://" +:+ Url.netloc parsed +:+ Url.path parsed.

End Web.

(** ** [crawler.py]: the queue-driven crawler *)

Module Crawler.
Import Web.

(** The keys of the [settings] dictionary the crawler reads; a missing
    key reads as the default of its [settings.get]. *)
Record Settings := mkSettings {
  max_depth : Z;
  max_pages_per_domain : Z;
  follow_external_links : bool;
  restrict_to_domains : list string;
  ignore_query_strings : bool;
  exclude_url_patterns : list string
}.

Definition default_settings : Settings :=
  mkSettings 1 10 false [] true [].

(** The [page_data] dictionary. *)
Record PageRecord := mkRecord {
  rec_url : string;
  rec_title : string;
  rec_description : string;
  rec_content : string;
  rec_links_count : nat;
  rec_images_count : nat;
  rec_forms_count : nat;
  rec_scripts_count : nat;
  rec_depth : Z;
  rec_domain : string
}.

(** The mutable attributes of a [WebCrawler].  [loads] is not an
    attribute: it records, oldest first, the URL of every page load
    [crawl_page] starts with [self.driver.get(url)]; the reload of the
    current page in the branch for shared chats is not counted. *)
Record State := mkState {
  visited_urls : gset string;
  url_queue : list (string * Z);
  results : list PageRecord;
  pages_crawled_per_domain : gmap string Z;
  loads : list string
}.

Definition is_allowed_domain (domain : string) (restrict : list string) : bool :=
  if Url.in_list domain restrict then true
  else existsb (fun allowed =>
                  Url.endswith domain ("." +:+ allowed)
                  || String.eqb domain allowed) restrict.

(** [domain in self.pages_crawled_per_domain and
     self.pages_crawled_per_domain[domain] >= max_pages_per_domain] *)
Definition domain_exhausted (cfg : Settings) (st : State) (domain : string) : bool :=
  match pages_crawled_per_domain st !! domain with
  | Some n => max_pages_per_domain cfg <=? n
  | None => false
  end.

Definition should_follow_url (e : Env) (cfg : Settings) (st : State)
    (base_url url : string) : bool :=
  if String.eqb url "" || Url.startswith url "javascript:" || String.eqb url "#"
  then false
  else
    let domain := Url.netloc (urlparse e url) in
    if String.eqb domain "" then true
    else
      let base_domain := get_domain e base_url in
      if match restrict_to_domains cfg with [] => false | _ :: _ => true end
         && negb (is_allowed_domain domain (restrict_to_domains cfg))
         && negb (follow_external_links cfg)
      then false
      else if negb (String.eqb domain base_domain)
              && negb (follow_external_links cfg)
      then false
      else if negb (String.eqb domain base_domain)
              && domain_exhausted cfg st domain
      then false
      else if existsb (fun pattern => re_search e pattern url)
                      (exclude_url_patterns cfg)
      then false
      else if ignore_query_strings cfg
              && bool_decide (normalize_url e url ∈ visited_urls st)
      then false
      else if bool_decide (url ∈ visited_urls st) then false
      else true.

(** The anchors without [href] are dropped, the others are made
    absolute and kept when [should_follow_url] accepts them.  When the
    driver raises half way through, the code keeps the links read so far:
    [anchors pg] then stands for the anchors read. *)
Definition extract_links (e : Env) (cfg : Settings) (st : State)
    (url : string) (pg : Page) : list string :=
  List.filter (should_follow_url e cfg st url)
    (List.map (urljoin e url)
       (List.filter (fun href => negb (String.eqb href "")) (anchors pg))).

Definition page_data (e : Env) (url : string) (depth : Z) (pg : Page) : PageRecord :=
  mkRecord url (title pg) (description pg) (body_text pg)
    (length (anchors pg)) (images pg) (forms pg) (scripts pg)
    depth (get_domain e url).

(** The body of [crawl_page] from [self.visited_urls.add(url)] on. *)
Definition load_page (e : Env) (cfg : Settings) (url : string) (depth : Z)
    (st : State) : State * option PageRecord :=
  let domain := get_domain e url in
  let st1 := mkState ({[ url ]} ∪ visited_urls st) (url_queue st) (results st)
               (pages_crawled_per_domain st) (loads st ++ [url]) in
  match driver e url with
  | None => (st1, None)
  | Some pg =>
      let count := default 0 (pages_crawled_per_domain st1 !! domain) in
      let st2 := mkState (visited_urls st1) (url_queue st1) (results st1)
                   (<[ domain := count + 1 ]> (pages_crawled_per_domain st1))
                   (loads st1) in
      let st3 :=
        if depth <? max_depth cfg then
          let links := extract_links e cfg st2 url pg in
          let fresh := List.filter
                         (fun link => negb (bool_decide (link ∈ visited_urls st2)))
                         links in
          mkState (visited_urls st2)
            (url_queue st2 ++ List.map (fun link => (link, depth + 1)) fresh)
            (results st2) (pages_crawled_per_domain st2) (loads st2)
        else st2 in
      (st3, Some (page_data e url depth pg))
  end.

Definition crawl_page (e : Env) (cfg : Settings) (url : string) (depth : Z)
    (st : State) : State * option PageRecord :=
  if max_depth cfg <? depth then (st, None)
  else if bool_decide (url ∈ visited_urls st) then (st, None)
  else
    let domain := get_domain e url in
    match pages_crawled_per_domain st !! domain with
    | Some n =>
        if max_pages_per_domain cfg <=? n then (st, None)
        else load_page e cfg url depth st
    | None =>
        load_page e cfg url depth
          (mkState (visited_urls st) (url_queue st) (results st)
             (<[ domain := 0 ]> (pages_crawled_per_domain st)) (loads st))
    end.

(** One turn of the [while self.url_queue] loop on the popped item. *)
Definition crawl_item (e : Env) (cfg : Settings) (url : string) (depth : Z)
    (st : State) : State :=
  if bool_decide (url ∈ visited_urls st) then st
  else
    match crawl_page e cfg url depth st with
    | (st', Some data) =>
        mkState (visited_urls st') (url_queue st') (results st' ++ [data])
          (pages_crawled_per_domain st') (loads st')
    | (st', None) => st'
    end.

(** The loop, bounded by [fuel] turns: [None] when the queue is not yet
    empty after that many turns. *)
Fixpoint crawl_loop (e : Env) (cfg : Settings) (fuel : nat) (st : State)
    : option State :=
  match url_queue st with
  | [] => Some st
  | (url, depth) :: rest =>
      match fuel with
      | O => None
      | S fuel' =>
          crawl_loop e cfg fuel'
            (crawl_item e cfg url depth
               (mkState (visited_urls st) rest (results st)
                  (pages_crawled_per_domain st) (loads st)))
      end
  end.

Definition initial_state (start_url : string) : State :=
  mkState ∅ [(start_url, 0)] [] ∅ [].

Definition crawl (e : Env) (cfg : Settings) (fuel : nat) (start_url : string)
    : option (list PageRecord) :=
  results <$> crawl_loop e cfg fuel (initial_state start_url).

(** *** The caller in [app_simple.py] *)

Record CrawlOptions := mkOptions {
  enabled : bool;
  opt_max_depth : Z;
  opt_max_pages : Z;
  opt_follow_external_links : bool;
  opt_restrict_to_domain : bool;
  opt_ignore_query_strings : bool
}.

Definition default_options : CrawlOptions :=
  mkOptions false 1 10 false true true.

(** The [crawler_settings] dictionary. *)
Definition crawler_settings (e : Env) (url : string) (o : CrawlOptions) : Settings :=
  mkSettings (opt_max_depth o) (opt_max_pages o) (opt_follow_external_links o)
    (if opt_restrict_to_domain o then [Url.netloc (urlparse e url)] else [])
    (opt_ignore_query_strings o) [].

(** [crawled_pages_data] of the scrape endpoint. *)
Definition crawled_pages_data (e : Env) (fuel : nat) (url : string)
    (o : CrawlOptions) : option (list PageRecord) :=
  if enabled o then crawl e (crawler_settings e url o) fuel url else Some [].

(** *** Notions used to state the properties of the crawler *)

(** [pop st rest]: [st] once [self.url_queue.pop(0)] left [rest]. *)
Definition pop (st : State) (rest : list (string * Z)) : State :=
  mkState (visited_urls st) rest (results st)
    (pages_crawled_per_domain st) (loads st).

(** What a turn on the item [(url, depth)] can do to the crawler: leave
    it as it is; mark the URL visited after a load that failed; or mark
    it visited, record the page and queue links one level down. *)
Inductive outcome (e : Env) (cfg : Settings) (url : string) (depth : Z)
    (st : State) : State -> Prop :=
| skipped : outcome e cfg url depth st st
| failed (counters : gmap string Z) :
    driver e url = None ->
    url ∉ visited_urls st ->
    outcome e cfg url depth st
      (mkState ({[ url ]} ∪ visited_urls st) (url_queue st) (results st)
         counters (loads st ++ [url]))
| recorded (pg : Page) (counters : gmap string Z) (links : list string)
    (st2 : State) :
    driver e url = Some pg ->
    url ∉ visited_urls st ->
    depth <= max_depth cfg ->
    (links = [] \/ depth < max_depth cfg) ->
    Forall (fun link => should_follow_url e cfg st2 url link = true) links ->
    outcome e cfg url depth st
      (mkState ({[ url ]} ∪ visited_urls st)
         (url_queue st ++ List.map (fun link => (link, depth + 1)) links)
         (results st ++ [page_data e url depth pg])
         counters (loads st ++ [url])).

(** The number of levels left below an item of the queue. *)
Definition levels_left (cfg : Settings) (item : string * Z) : nat :=
  Z.to_nat (max_depth cfg - snd item + 1).

(** Every URL is loaded at most once, every loaded URL is marked
    visited, and only pages that loaded have a record. *)
Definition loads_once (e : Env) (st : State) : Prop :=
  List.NoDup (loads st)
  /\ (forall url, In url (loads st) -> url ∈ visited_urls st)
  /\ (forall r, In r (results st) -> driver e (rec_url r) <> None).

(** Records of one level come before those of the next level. *)
Definition level_order (depths : list Z) : Prop :=
  forall (i j : nat) (d : Z),
    depths !! i = Some d -> depths !! j = Some (d + 1) -> (i < j)%nat.

(** Depths never decrease along the list. *)
Definition ascending (depths : list Z) : Prop :=
  forall (i j : nat) (a b : Z),
    (i < j)%nat -> depths !! i = Some a -> depths !! j = Some b -> a <= b.

(** The queue holds the rest of the current level followed by what has
    been found of the next one, and the records so far are in ascending
    order of depth, none deeper than the current level. *)
Definition by_levels (st : State) : Prop :=
  exists (level : Z) (q1 q2 : list (string * Z)),
    url_queue st = q1 ++ q2
    /\ Forall (fun item => snd item = level) q1
    /\ Forall (fun item => snd item = level + 1) q2
    /\ (forall d, In d (rec_depth <$> results st) -> d <= level)
    /\ ascending (rec_depth <$> results st).

(** The candidate's domain is an entry of the list or ends with a dot
    followed by an entry. *)
Definition listed (domain : string) (restrict : list string) : Prop :=
  exists allowed,
    In allowed restrict
    /\ (domain = allowed \/ exists sub, domain = sub +:+ "." +:+ allowed).

(** Every queued URL and every record is on the domain [d] or has no
    network location. *)
Definition on_domain (e : Env) (d : string) (st : State) : Prop :=
  Forall (fun item => get_domain e (fst item) = d \/ get_domain e (fst item) = "")
    (url_queue st)
  /\ Forall (fun r => rec_domain r = d \/ rec_domain r = "") (results st).

(** *** Notions used to state further properties of the crawler *)

(** The counters once a page of [domain] has been counted. *)
Definition counted (domain : string) (counters : gmap string Z) : gmap string Z :=
  <[ domain := default 0 (counters !! domain) + 1 ]> counters.

(** The counters once [crawl_page] has made sure [domain] has an entry. *)
Definition opened (domain : string) (counters : gmap string Z) : gmap string Z :=
  match counters !! domain with
  | Some _ => counters
  | None => <[ domain := 0 ]> counters
  end.

(** The links [crawl_page] appends to the queue after loading [pg] at
    [url]: none at the last level, otherwise the links [extract_links]
    returns in the state reached after the page has been counted. *)
Definition queued_links (e : Env) (cfg : Settings) (url : string) (depth : Z)
    (st : State) (pg : Page) : list string :=
  if depth <? max_depth cfg then
    let st2 := mkState ({[ url ]} ∪ visited_urls st) (url_queue st) (results st)
                 (counted (get_domain e url) (pages_crawled_per_domain st))
                 (loads st ++ [url]) in
    List.filter (fun link => negb (bool_decide (link ∈ visited_urls st2)))
      (extract_links e cfg st2 url pg)
  else [].

(** The number of records of [domain] in a result list. *)
Definition records_of (domain : string) (rs : list PageRecord) : Z :=
  Z.of_nat (length (List.filter (fun r => String.eqb (rec_domain r) domain) rs)).

(** Where a queued or recorded URL comes from: it is the start URL at
    depth 0, or the [href] of an anchor of a page recorded one level up,
    made absolute against that page's URL. *)
Definition linked_from (e : Env) (start_url : string) (rs : list PageRecord)
    (url : string) (depth : Z) : Prop :=
  (url = start_url /\ depth = 0)
  \/ exists parent pg href,
       In parent rs
       /\ driver e (rec_url parent) = Some pg
       /\ In href (anchors pg)
       /\ href <> ""
       /\ url = urljoin e (rec_url parent) href
       /\ depth = rec_depth parent + 1.

(** Whether a load of [url] succeeds. *)
Definition loads_well (e : Env) (url : string) : bool :=
  match driver e url with
  | Some _ => true
  | None => false
  end.

(** The counter of a domain is the number of its records and is at most
    the cap, or 1 when the cap is smaller; a domain without counter has
    no record. *)
Definition domains_counted (cfg : Settings) (st : State) : Prop :=
  forall domain,
    match pages_crawled_per_domain st !! domain with
    | Some n =>
        n = records_of domain (results st)
        /\ n <= Z.max 1 (max_pages_per_domain cfg)
    | None => records_of domain (results st) = 0
    end.

End Crawler.

(** ** [app/services/scraping_service.py]: the recursive crawler *)

Module Service.
Import Web.

(** The attributes [WebCrawler.__init__] copies out of [settings]. *)
Record Settings := mkSettings {
  max_depth : Z;
  max_pages : Z;
  follow_external_links : bool;
  restrict_to_domains : list string;
  ignore_query_strings : bool;
  exclude_url_patterns : list string
}.

(** The dictionary [_crawl_page] returns. *)
Record PageData := mkData {
  data_url : string;
  data_title : string;
  data_description : string;
  data_content : string
}.

(** [visited_urls] and [pages_data] are the attributes of the crawler.
    [page_depths] and [loads] are not attributes: the first holds, for
    each entry of [pages_data] in the same order, the [depth] argument of
    the call that appended it; the second the argument of every
    [self.driver.get(url)], oldest first. *)
Record State := mkState {
  visited_urls : gset string;
  pages_data : list PageData;
  page_depths : list Z;
  loads : list string
}.

Definition _crawl_page (e : Env) (url : string) : option PageData :=
  match driver e url with
  | Some pg => Some (mkData url (title pg) (description pg) (body_text pg))
  | None => None
  end.

(** The anchors of the page loaded last whose [href] starts with
    [http://] or [https://]. *)
Definition _extract_links (e : Env) (url : string) : list string :=
  match driver e url with
  | Some pg =>
      List.filter (fun href =>
                     negb (String.eqb href "")
                     && (Url.startswith href "http://"
                         || Url.startswith href "https://"))
        (anchors pg)
  | None => []
  end.

Definition _is_same_domain (e : Env) (url1 url2 : string) : bool :=
  String.eqb (get_domain e url1) (get_domain e url2).

Definition _should_follow_url (e : Env) (cfg : Settings)
    (base_url url : string) : bool :=
  if existsb (fun pattern => Url.str_in pattern url) (exclude_url_patterns cfg)
  then false
  else
    match restrict_to_domains cfg with
    | [] => true
    | _ :: _ =>
        let is_same_domain := _is_same_domain e base_url url in
        if negb (follow_external_links cfg) && negb is_same_domain then false
        else Url.in_list (get_domain e url) (restrict_to_domains cfg)
    end.

(** [for link in filtered_links: if len(self.pages_data) < self.max_pages:
    self._crawl_recursive(link, depth + 1) else: break], with the
    recursive call passed as [visit]. *)
Fixpoint crawl_links (cfg : Settings)
    (visit : string -> State -> option State)
    (links : list string) (st : State) : option State :=
  match links with
  | [] => Some st
  | link :: links' =>
      if Z.of_nat (length (pages_data st)) <? max_pages cfg then
        match visit link st with
        | Some st' => crawl_links cfg visit links' st'
        | None => None
        end
      else Some st
  end.

(** [_crawl_recursive]; [fuel] bounds the nesting of the calls and
    [None] is returned when it is used up. *)
Fixpoint _crawl_recursive (e : Env) (cfg : Settings) (fuel : nat)
    (url : string) (depth : Z) (st : State) : option State :=
  match fuel with
  | O => None
  | S fuel' =>
      if max_depth cfg <? depth then Some st
      else if max_pages cfg <=? Z.of_nat (length (pages_data st)) then Some st
      else
        let normalized_url :=
          if ignore_query_strings cfg then normalize_url e url else url in
        if bool_decide (normalized_url ∈ visited_urls st) then Some st
        else
          let st1 := mkState ({[ normalized_url ]} ∪ visited_urls st)
                       (pages_data st) (page_depths st) (loads st ++ [url]) in
          match _crawl_page e url with
          | None => Some st1
          | Some data =>
              let st2 := mkState (visited_urls st1) (pages_data st1 ++ [data])
                           (page_depths st1 ++ [depth]) (loads st1) in
              if (depth <? max_depth cfg)
                 && (Z.of_nat (length (pages_data st2)) <? max_pages cfg)
              then
                let links := _extract_links e url in
                let filtered_links :=
                  List.filter (_should_follow_url e cfg url) links in
                crawl_links cfg
                  (fun link s => _crawl_recursive e cfg fuel' link (depth + 1) s)
                  filtered_links st2
              else Some st2
          end
  end.

Definition initial_state : State := mkState ∅ [] [] [].

(** [crawl]: both containers are cleared and the recursion starts at
    depth 1. *)
Definition crawl_state (e : Env) (cfg : Settings) (fuel : nat)
    (start_url : string) : option State :=
  _crawl_recursive e cfg fuel start_url 1 initial_state.

Definition crawl (e : Env) (cfg : Settings) (fuel : nat) (start_url : string)
    : option (list PageData) :=
  pages_data <$> crawl_state e cfg fuel start_url.

(** *** The caller [scrape_with_selenium] *)

Record CrawlArgs := mkArgs {
  arg_max_depth : Z;
  arg_max_pages : Z;
  arg_follow_external_links : bool;
  arg_restrict_to_domain : bool;
  arg_ignore_query_strings : bool
}.

Definition default_args : CrawlArgs := mkArgs 1 10 false true true.

(** The [settings] dictionary handed to [WebCrawler];
    [exclude] is [self.settings.EXCLUDE_URL_PATTERNS]. *)
Definition crawler_settings (e : Env) (exclude : list string) (url : string)
    (a : CrawlArgs) : Settings :=
  mkSettings (arg_max_depth a) (arg_max_pages a) (arg_follow_external_links a)
    (if arg_restrict_to_domain a then [get_domain e url] else [])
    (arg_ignore_query_strings a) exclude.

(** [crawled_pages_data] of [scrape_with_selenium]. *)
Definition crawled_pages_data (e : Env) (exclude : list string) (fuel : nat)
    (url : string) (a : CrawlArgs) : option (list PageData) :=
  if (1 <? arg_max_depth a) && (1 <? arg_max_pages a)
  then crawl e (crawler_settings e exclude url a) fuel url
  else Some [].

(** *** Notions used to state the properties of the crawler *)

(** The key under which a URL is remembered as visited. *)
Definition canonical (e : Env) (cfg : Settings) (url : string) : string :=
  if ignore_query_strings cfg then normalize_url e url else url.

(** The crawler once [url] has been marked visited and requested. *)
Definition marked (e : Env) (cfg : Settings) (url : string) (st : State) : State :=
  mkState ({[ canonical e cfg url ]} ∪ visited_urls st) (pages_data st)
    (page_depths st) (loads st ++ [url]).

(** The crawler once the page found at [depth] has been appended. *)
Definition appended (data : PageData) (depth : Z) (st : State) : State :=
  mkState (visited_urls st) (pages_data st ++ [data])
    (page_depths st ++ [depth]) (loads st).

(** No two pages and no two loads share a canonical URL, and the
    canonical URLs of the loads are marked visited. *)
Definition canonical_once (e : Env) (cfg : Settings) (st : State) : Prop :=
  List.NoDup (List.map (canonical e cfg) (loads st))
  /\ (forall url, In url (loads st) -> canonical e cfg url ∈ visited_urls st)
  /\ exists picked,
       sublist picked (loads st) /\ List.map data_url (pages_data st) = picked.

(** *** Notions used to state further properties of the crawler *)

(** What the link filters let through: an [href] that starts with
    [http://] or [https://], contains no exclusion pattern and, when the
    domain list is not empty, has its domain in the list. *)
Definition passes_filters (e : Env) (cfg : Settings) (url : string) : Prop :=
  (Url.startswith url "http://" || Url.startswith url "https://") = true
  /\ existsb (fun pattern => Url.str_in pattern url) (exclude_url_patterns cfg) = false
  /\ (restrict_to_domains cfg <> [] -> In (get_domain e url) (restrict_to_domains cfg)).

(** *** The crawling part of the metadata of [scrape_with_selenium] *)

Record CrawlingData := mkCrawling {
  crawling_enabled : bool;
  pages_crawled : nat;
  crawling_max_depth : Z;
  crawled_urls : list string
}.

(** [CrawlingData(...) if max_depth > 1 else None], for the pages the
    crawl returned. *)
Definition crawling (a : CrawlArgs) (pages : list PageData) : option CrawlingData :=
  let urls := List.map data_url pages in
  if 1 <? arg_max_depth a
  then Some (mkCrawling (1 <? arg_max_depth a) (length urls) (arg_max_depth a) urls)
  else None.

End Service.

(** ** [app/core/browser.py]: the browser pool *)

Module Pool.

(** A [BrowserInstance] object.  Drivers are named by numbers. *)
Record BrowserInstance := mkInstance {
  driver : nat;
  last_used : Z;
  in_use : bool
}.

(** The two settings the pool reads. *)
Record Settings := mkSettings {
  BROWSER_POOL_SIZE : Z;
  BROWSER_MAX_IDLE_TIME : Z
}.

(** A [BrowserPool] and the objects it has created.  Instances are
    mutable objects compared by identity, so they live in [heap] under
    the number they were allocated at and [pool] holds references.
    [next_id] is the number of the next object; [quit_log] lists the
    drivers [quit()] was called on, oldest first. *)
Record BrowserPool := mkPool {
  heap : gmap nat BrowserInstance;
  pool : list nat;
  next_id : nat;
  quit_log : list nat;
  running : bool
}.

Definition empty_pool : BrowserPool := mkPool ∅ [] 0%nat [] true.

(** [not instance.in_use], for a reference. *)
Definition is_idle (h : gmap nat BrowserInstance) (i : nat) : bool :=
  match h !! i with
  | Some inst => negb (in_use inst)
  | None => false
  end.

Definition set_heap (bp : BrowserPool) (h : gmap nat BrowserInstance) : BrowserPool :=
  mkPool h (pool bp) (next_id bp) (quit_log bp) (running bp).

(** [instance.in_use = b; instance.last_used = now] *)
Definition touch (b : bool) (now : Z) (inst : BrowserInstance) : BrowserInstance :=
  mkInstance (driver inst) now b.

(** The entry of [get_browser], up to the [yield]: the pool after it and
    the instance lent, or [None] when [_create_browser] raised.  [now] is
    the value of [time.time()], [launch] tells whether a browser can be
    started. *)
Definition get_browser (cfg : Settings) (now : Z) (launch : bool)
    (bp : BrowserPool) : BrowserPool * option nat :=
  match List.find (is_idle (heap bp)) (pool bp) with
  | Some i => (set_heap bp (alter (touch true now) i (heap bp)), Some i)
  | None =>
      if Z.of_nat (length (pool bp)) <? BROWSER_POOL_SIZE cfg then
        if launch then
          let i := next_id bp in
          (mkPool (<[ i := mkInstance i now true ]> (heap bp)) (pool bp ++ [i])
             (S i) (quit_log bp) (running bp), Some i)
        else (bp, None)
      else
        if launch then
          let i := next_id bp in
          (mkPool (<[ i := mkInstance i now true ]> (heap bp)) (pool bp)
             (S i) (quit_log bp) (running bp), Some i)
        else (bp, None)
  end.

(** The [finally] block of [get_browser] for the instance [i]. *)
Definition release (now : Z) (i : nat) (bp : BrowserPool) : BrowserPool :=
  set_heap bp (alter (touch false now) i (heap bp)).

(** [self.pool.remove(instance)]: the first occurrence goes. *)
Fixpoint list_remove (i : nat) (l : list nat) : list nat :=
  match l with
  | [] => []
  | j :: l' => if Nat.eqb i j then l' else j :: list_remove i l'
  end.

(** The condition of the list comprehension in [cleanup]. *)
Definition evictable (cfg : Settings) (now : Z) (h : gmap nat BrowserInstance)
    (i : nat) : bool :=
  match h !! i with
  | Some inst =>
      negb (in_use inst) && (BROWSER_MAX_IDLE_TIME cfg <? now - last_used inst)
  | None => false
  end.

Definition browsers_to_remove (cfg : Settings) (now : Z) (bp : BrowserPool) : list nat :=
  List.filter (evictable cfg now (heap bp)) (pool bp).

(** [instance.driver.quit()] followed by [self.pool.remove(instance)]. *)
Definition quit_and_remove (bp : BrowserPool) (i : nat) : BrowserPool :=
  mkPool (heap bp) (list_remove i (pool bp)) (next_id bp)
    (quit_log bp ++ match heap bp !! i with
                    | Some inst => [driver inst]
                    | None => []
                    end)
    (running bp).

(** One pass of the body of [cleanup], at time [now]. *)
Definition cleanup (cfg : Settings) (now : Z) (bp : BrowserPool) : BrowserPool :=
  fold_left quit_and_remove (browsers_to_remove cfg now bp) bp.

Definition shutdown (bp : BrowserPool) : BrowserPool :=
  mkPool (heap bp) []
    (next_id bp)
    (quit_log bp ++ List.concat
       (List.map (fun i => match heap bp !! i with
                           | Some inst => [driver inst]
                           | None => []
                           end) (pool bp)))
    false.

(** The operations threads perform on a pool; each runs under
    [self.lock], so a history of the pool is a list of them. *)
Inductive Op :=
| Borrow (now : Z) (launch : bool)
| Release (now : Z) (i : nat)
| Sweep (now : Z)
| Shutdown.

Definition step (cfg : Settings) (bp : BrowserPool) (o : Op) : BrowserPool :=
  match o with
  | Borrow now launch => fst (get_browser cfg now launch bp)
  | Release now i => release now i bp
  | Sweep now => cleanup cfg now bp
  | Shutdown => shutdown bp
  end.

Definition run (cfg : Settings) (ops : list Op) : BrowserPool :=
  fold_left (step cfg) ops empty_pool.

(** An instance is temporary when the pool holds no reference to it. *)
Definition pooled (bp : BrowserPool) (i : nat) : bool :=
  existsb (Nat.eqb i) (pool bp).

(** *** Notions used to state the properties of the pool *)

(** The drivers of the instances [rs] refers to. *)
Definition drivers_of (h : gmap nat BrowserInstance) (rs : list nat) : list nat :=
  List.concat (List.map (fun i => match h !! i with
                                  | Some inst => [driver inst]
                                  | None => []
                                  end) rs).

Record well_formed (bp : BrowserPool) : Prop := {
  wf_nodup : List.NoDup (pool bp);
  wf_pool : forall i, In i (pool bp) -> is_Some (heap bp !! i);
  wf_heap : forall i inst, heap bp !! i = Some inst ->
                           (i < next_id bp)%nat /\ driver inst = i
}.

End Pool.

(** ** Small sites used in the worked examples *)

Module Sites.
Import Web.

(** A page that only carries links. *)
Definition linking (hrefs : list string) : Page :=
  mkPage "t" "" "body" hrefs 0 0 0.

(** The site given by a table: a URL outside the table fails to load. *)
Fixpoint site (table : list (string * Page)) (url : string) : option Page :=
  match table with
  | [] => None
  | (u, pg) :: table' => if String.eqb u url then Some pg else site table' url
  end.

Definition env_of (table : list (string * Page)) : Env :=
  mkEnv Url.urlparse Url.urljoin_absolute Url.re_search_literal (site table).

(** A page of [a.com] linking to a page of [b.com]. *)
Definition two_domains : Env :=
  env_of [("https://a.com/", linking ["https://b.com/"]);
          ("https://b.com/", linking [])].

(** A page linking twice to the same path under different queries. *)
Definition two_queries : Env :=
  env_of [("https://a.com/", linking ["https://a.com/p?x=1"; "https://a.com/p?x=2"]);
          ("https://a.com/p?x=1", linking []);
          ("https://a.com/p?x=2", linking [])].

(** A start page with two children, the first of which has a child. *)
Definition small_tree : Env :=
  env_of [("https://a.com/", linking ["https://a.com/x"; "https://a.com/y"]);
          ("https://a.com/x", linking ["https://a.com/z"]);
          ("https://a.com/y", linking []);
          ("https://a.com/z", linking [])].

(** A start page whose first link times out and whose second loads. *)
Definition one_timeout : Env :=
  env_of [("https://a.com/", linking ["https://a.com/slow"; "https://a.com/ok"]);
          ("https://a.com/ok", linking [])].

(** A page with a mail link. *)
Definition mail_link : Env :=
  env_of [("https://a.com/", linking ["mailto:admin@a.com"]);
          ("mailto:admin@a.com", linking [])].

End Sites.

(** ** [web_scraper.py]: scraping with Trafilatura *)

Module TextScraper.
Import Web.

(** The attributes read off a Trafilatura metadata object; [None] is an
    attribute that is [None]. *)
Record Metadata := mkMetadata {
  meta_title : option string;
  meta_author : option string;
  meta_date : option string;
  meta_description : option string;
  meta_sitename : option string;
  meta_categories : option (list string)
}.

(** The three Trafilatura calls.  The outer [None] is a call that
    raises, the inner [None] a call that returns [None]. *)
Record Trafilatura := mkTrafilatura {
  fetch_url : string -> option (option string);
  extract : string -> option (option string);
  extract_metadata : string -> option (option Metadata)
}.

(** [bool(parsed.netloc) and bool(parsed.scheme)] *)
Definition is_valid_url (e : Env) (url : string) : bool :=
  negb (String.eqb (Url.netloc (urlparse e url)) "")
  && negb (String.eqb (Url.scheme (urlparse e url)) "").

(** [url.startswith(('http://', 'https://'))] *)
Definition has_http_prefix (url : string) : bool :=
  Url.startswith url "http://" || Url.startswith url "https://".

(** The first block of [scrape_with_trafilatura]: the URL the function
    goes on with, or [None] when it returns "Invalid URL format". *)
Definition checked_url (e : Env) (url : string) : option string :=
  if negb (is_valid_url e url) then
    if negb (has_http_prefix url) then
      let url' := "https://" +:+ url in
      if negb (is_valid_url e url') then None else Some url'
    else None
  else Some url.

(** [x if x else ""] *)
Definition or_empty (x : option string) : string := default "" x.

(** [not x], for a string or [None]. *)
Definition falsy (x : option string) : bool := String.eqb (or_empty x) "".

Inductive ErrorKind :=
| InvalidUrlFormat
| FailedToDownload
| ScrapingError.

(** The metadata added to ["metadata"] when a metadata object is found. *)
Record Details := mkDetails {
  author : string;
  date : string;
  sitename : string;
  categories : list string
}.

(** The ["data"] of a successful result; [data_title] and
    [data_description] are [None] when the keys are absent. *)
Record Data := mkData {
  content : string;
  original : string;
  domain : string;
  content_length : nat;
  data_title : option string;
  data_description : option string;
  details : option Details
}.

Inductive Result :=
| Failure (kind : ErrorKind)
| Success (data : Data).

Definition scrape_with_trafilatura (tr : Trafilatura) (e : Env) (url : string)
    (with_metadata : bool) : Result :=
  match checked_url e url with
  | None => Failure InvalidUrlFormat
  | Some url =>
      match fetch_url tr url with
      | None => Failure ScrapingError
      | Some downloaded =>
          if falsy downloaded then Failure FailedToDownload
          else
            match extract tr (or_empty downloaded) with
            | None => Failure ScrapingError
            | Some text =>
                let content := or_empty text in
                let result := mkData content url (get_domain e url)
                                (String.length content) in
                if with_metadata then
                  match extract_metadata tr (or_empty downloaded) with
                  | None => Failure ScrapingError
                  | Some (Some m) =>
                      Success
                        (result (Some (or_empty (meta_title m)))
                           (Some (or_empty (meta_description m)))
                           (Some (mkDetails (or_empty (meta_author m))
                                    (or_empty (meta_date m))
                                    (or_empty (meta_sitename m))
                                    (default [] (meta_categories m)))))
                  | Some None => Success (result (Some "") (Some "") None)
                  end
                else Success (result None None None)
            end
      end
  end.

(** The check of the request URL in the endpoints of [app_simple.py]:
    [None] is the exception raised for a missing URL, otherwise the URL
    is given
    the prefix [https://] unless it starts with [http://] or
    [https://]. *)
Definition request_url (url : string) : option string :=
  if String.eqb url "" then None
  else if negb (has_http_prefix url) then Some ("https://" +:+ url)
  else Some url.

End TextScraper.

(** ** [app_simple.py]: tokens *)

Module Tokens.

Definition API_TOKEN : string := "scraper-token-12345".

(** [VALIDATED_TOKENS] and the content of the token file ([None] when
    the file does not exist). *)
Record Store := mkStore {
  VALIDATED_TOKENS : gset string;
  token_file : option (list string)
}.

(** [load_validated_tokens]; [readable] is false when opening or
    decoding the file raises. *)
Definition load_validated_tokens (readable : bool) (st : Store) : Store :=
  match token_file st with
  | Some tokens =>
      if readable then mkStore (list_to_set tokens) (token_file st)
      else mkStore ∅ (token_file st)
  | None => st
  end.

(** [save_validated_tokens]; [writable] is false when opening the file
    for writing raises, which leaves the file as it was. *)
Definition save_validated_tokens (writable : bool) (st : Store) : Store :=
  if writable
  then mkStore (VALIDATED_TOKENS st) (Some (elements (VALIDATED_TOKENS st)))
  else st.

Definition verify_token (writable : bool) (token : string) (st : Store)
    : Store * bool :=
  if bool_decide (token ∈ VALIDATED_TOKENS st) then (st, true)
  else
    let is_valid := String.eqb token API_TOKEN in
    if is_valid
    then (save_validated_tokens writable
            (mkStore ({[ token ]} ∪ VALIDATED_TOKENS st) (token_file st)), true)
    else (st, false).

(** The guard at the head of every endpoint,
    [if token is not None and not verify_token(token): raise 401]:
    the store after it and whether the request goes on. *)
Definition token_guard (writable : bool) (token : option string) (st : Store)
    : Store * bool :=
  match token with
  | None => (st, true)
  | Some t => verify_token writable t st
  end.

(** A history of requests: each carries its token, if any, and whether
    the file can be written at that moment. *)
Definition serve (st : Store) (requests : list (option string * bool)) : Store :=
  fold_left (fun s r => fst (token_guard (snd r) (fst r) s)) requests st.

End Tokens.

(** ** [app_simple.py]: the settings kept in the process *)

Module SettingsStore.

(** The two functions are generic in the settings object: [defaults] is
    [ScraperSettings()], [parse] builds a [ScraperSettings] from
    [json.loads(s)] and [dump] is [json.dumps(settings.dict())], each
    [None] when it raises. *)
Record Codec (S : Type) := mkCodec {
  defaults : S;
  parse : string -> option S;
  dump : S -> option string
}.
Arguments defaults {S}.
Arguments parse {S}.
Arguments dump {S}.

(** [GLOBAL_SETTINGS] and the environment variable [SCRAPER_SETTINGS]. *)
Record Store (S : Type) := mkStore {
  GLOBAL_SETTINGS : option S;
  environ : option string
}.
Arguments mkStore {S}.
Arguments GLOBAL_SETTINGS {S}.
Arguments environ {S}.

Definition use_defaults {S : Type} (c : Codec S) (st : Store S) : Store S * S :=
  (mkStore (Some (defaults c)) (environ st), defaults c).

Definition load_settings {S : Type} (c : Codec S) (st : Store S) : Store S * S :=
  match GLOBAL_SETTINGS st with
  | Some settings => (st, settings)
  | None =>
      match environ st with
      | Some settings_json =>
          if String.eqb settings_json "" then use_defaults c st
          else
            match parse c settings_json with
            | Some settings => (mkStore (Some settings) (environ st), settings)
            | None => use_defaults c st
            end
      | None => use_defaults c st
      end
  end.

Definition save_settings {S : Type} (c : Codec S) (settings : S) (st : Store S)
    : Store S * bool :=
  match dump c settings with
  | Some settings_json => (mkStore (Some settings) (Some settings_json), true)
  | None => (mkStore (Some settings) (environ st), false)
  end.

End SettingsStore.

(** ** [app/services/settings_service.py]: updating the settings *)

Module SettingsService.

(** The keys [_update_global_settings] looks for, each with the
    attribute of [Settings] it assigns, in the order of the code. *)
Definition fields : list (string * string) :=
  [("page_load_timeout", "PAGE_LOAD_TIMEOUT");
   ("dynamic_content_wait", "DYNAMIC_CONTENT_WAIT");
   ("chatgpt_min_wait", "CHATGPT_MIN_WAIT");
   ("chatgpt_max_wait", "CHATGPT_MAX_WAIT");
   ("max_depth", "MAX_DEPTH");
   ("max_pages_per_domain", "MAX_PAGES_PER_DOMAIN");
   ("restrict_to_domains", "RESTRICT_TO_DOMAINS");
   ("follow_external_links", "FOLLOW_EXTERNAL_LINKS");
   ("ignore_query_strings", "IGNORE_QUERY_STRINGS");
   ("exclude_url_patterns", "EXCLUDE_URL_PATTERNS")].

(** [if key in settings_dict: self.settings.ATTR = settings_dict[key]];
    the settings object is the map of its attributes and [V] the type of
    the values. *)
Definition assign {V : Type} (settings_dict : gmap string V)
    (settings : gmap string V) (field : string * string) : gmap string V :=
  match settings_dict !! fst field with
  | Some v => <[ snd field := v ]> settings
  | None => settings
  end.

Definition _update_global_settings {V : Type} (settings_dict : gmap string V)
    (settings : gmap string V) : gmap string V :=
  fold_left (assign settings_dict) fields settings.

End SettingsService.

(** * Properties *)

(** ** URL helpers on examples *)

Module UrlSpec.

Example urlparse_http :
  Url.urlparse "https://Example.com/a/b?x=1#f" =
  Url.mkParse "https" "Example.com" "/a/b".
Proof. reflexivity. Qed.

Example urlparse_port :
  Url.urlparse "http://sub.example.com:8080/p" =
  Url.mkParse "http" "sub.example.com:8080" "/p".
Proof. reflexivity. Qed.

Example urlparse_mailto :
  Url.urlparse "mailto:admin@a.com" = Url.mkParse "mailto" "" "admin@a.com".
Proof. reflexivity. Qed.

Example urlparse_relative :
  Url.urlparse "/docs/page?x=1" = Url.mkParse "" "" "/docs/page".
Proof. reflexivity. Qed.

Example normalize_strips_query :
  Web.normalize_url (Sites.env_of []) "https://a.com/p?x=1" = "https://a.com/p".
Proof. reflexivity. Qed.

Example endswith_subdomain : Url.endswith "blog.a.com" ".a.com" = true.
Proof. reflexivity. Qed.

Example str_in_middle : Url.str_in "admin" "https://a.com/admin/x" = true.
Proof. reflexivity. Qed.

End UrlSpec.

(** ** The browser pool *)

Module PoolSpec.
Import Pool.

(** *** [list.remove] on a list without repetition *)

Lemma list_remove_subset (i j : nat) (l : list nat) :
  In j (list_remove i l) -> In j l.
Proof.
  induction l as [|k l IH]; simpl; [tauto|].
  destruct (Nat.eqb i k); simpl; tauto.
Qed.

Lemma list_remove_length (i : nat) (l : list nat) :
  (length (list_remove i l) <= length l)%nat.
Proof.
  induction l as [|k l IH]; simpl; [lia|].
  destruct (Nat.eqb i k); simpl; lia.
Qed.

Lemma filter_all (f : nat -> bool) (l : list nat) :
  (forall j, In j l -> f j = true) -> List.filter f l = l.
Proof.
  induction l as [|k l IH]; simpl; intros H; [reflexivity|].
  rewrite (H k) by tauto. f_equal. apply IH. intros j Hj. apply H. tauto.
Qed.

Lemma filter_twice (f g : nat -> bool) (l : list nat) :
  List.filter f (List.filter g l) = List.filter (fun j => g j && f j) l.
Proof.
  induction l as [|k l IH]; simpl; [reflexivity|].
  destruct (g k); simpl; [destruct (f k)|]; rewrite IH; reflexivity.
Qed.

Lemma list_remove_filter (i : nat) (l : list nat) :
  List.NoDup l -> list_remove i l = List.filter (fun j => negb (Nat.eqb i j)) l.
Proof.
  induction 1 as [|k l Hk Hl IH]; simpl; [reflexivity|].
  destruct (Nat.eqb i k) eqn:E; simpl.
  - apply Nat.eqb_eq in E. subst k. symmetry. apply filter_all.
    intros j Hj. destruct (Nat.eqb i j) eqn:E'; [|reflexivity].
    apply Nat.eqb_eq in E'. subst j. contradiction.
  - f_equal. exact IH.
Qed.

Lemma filter_NoDup (f : nat -> bool) (l : list nat) :
  List.NoDup l -> List.NoDup (List.filter f l).
Proof.
  induction 1 as [|k l Hk Hl IH]; simpl; [constructor|].
  destruct (f k); [constructor|]; auto.
  intros Hin. apply filter_In in Hin. tauto.
Qed.

Lemma list_remove_all (rs l : list nat) :
  List.NoDup l ->
  fold_left (fun p i => list_remove i p) rs l
  = List.filter (fun j => negb (existsb (Nat.eqb j) rs)) l.
Proof.
  revert l. induction rs as [|r rs IH]; intros l Hl; simpl.
  - symmetry. apply filter_all. reflexivity.
  - rewrite list_remove_filter by exact Hl.
    rewrite IH by (apply filter_NoDup; exact Hl).
    rewrite filter_twice. apply filter_ext. intros j.
    rewrite (Nat.eqb_sym j r). rewrite negb_orb. reflexivity.
Qed.

(** *** The loop of [cleanup], field by field *)

Lemma quit_all_fields (rs : list nat) (bp : BrowserPool) :
  let bp' := fold_left quit_and_remove rs bp in
  heap bp' = heap bp
  /\ next_id bp' = next_id bp
  /\ running bp' = running bp
  /\ pool bp' = fold_left (fun p i => list_remove i p) rs (pool bp)
  /\ quit_log bp' = quit_log bp ++ drivers_of (heap bp) rs.
Proof.
  revert bp. induction rs as [|r rs IH]; intros bp; simpl.
  - unfold drivers_of. simpl. rewrite app_nil_r. tauto.
  - destruct (IH (quit_and_remove bp r)) as (Hh & Hn & Hr & Hp & Hq).
    rewrite Hh, Hn, Hr, Hp, Hq. simpl. unfold drivers_of. simpl.
    rewrite <- app_assoc. tauto.
Qed.

Lemma cleanup_pool (cfg : Settings) (now : Z) (bp : BrowserPool) :
  List.NoDup (pool bp) ->
  pool (cleanup cfg now bp)
  = List.filter (fun i => negb (evictable cfg now (heap bp) i)) (pool bp).
Proof.
  intros Hnd. unfold cleanup.
  destruct (quit_all_fields (browsers_to_remove cfg now bp) bp)
    as (_ & _ & _ & Hp & _).
  rewrite Hp, list_remove_all by exact Hnd.
  apply filter_ext_in. intros j Hj. f_equal.
  unfold browsers_to_remove.
  destruct (evictable cfg now (heap bp) j) eqn:E.
  - apply existsb_exists. exists j. split; [|apply Nat.eqb_refl].
    apply filter_In. tauto.
  - destruct (existsb _ _) eqn:E'; [|reflexivity].
    apply existsb_exists in E'. destruct E' as (k & Hk & Hjk).
    apply Nat.eqb_eq in Hjk. subst k. apply filter_In in Hk.
    destruct Hk as [_ Hk]. congruence.
Qed.

(** *** What holds of every pool the operations can produce *)

Lemma well_formed_empty : well_formed empty_pool.
Proof.
  split; simpl.
  - constructor.
  - tauto.
  - intros i inst H. rewrite lookup_empty in H. discriminate.
Qed.

Lemma well_formed_touch (b : bool) (now : Z) (i : nat) (bp : BrowserPool) :
  well_formed bp -> well_formed (set_heap bp (alter (touch b now) i (heap bp))).
Proof.
  intros [Hnd Hp Hh]. split; simpl.
  - exact Hnd.
  - intros j Hj. destruct (Hp j Hj) as [inst Hinst].
    destruct (decide (i = j)) as [->|Hne].
    + rewrite lookup_alter_eq, Hinst. eauto.
    + rewrite lookup_alter_ne by exact Hne. eauto.
  - intros j inst Hj.
    destruct (decide (i = j)) as [->|Hne].
    + rewrite lookup_alter_eq in Hj.
      destruct (heap bp !! j) as [inst0|] eqn:E; simpl in Hj; [|discriminate].
      injection Hj as <-. simpl. exact (Hh j inst0 E).
    + rewrite lookup_alter_ne in Hj by exact Hne. exact (Hh j inst Hj).
Qed.

Lemma fresh_not_pooled (bp : BrowserPool) :
  well_formed bp -> ~ In (next_id bp) (pool bp).
Proof.
  intros [_ Hp Hh] Hin. destruct (Hp _ Hin) as [inst Hinst].
  apply Hh in Hinst. lia.
Qed.

Lemma well_formed_alloc (now : Z) (p : list nat) (bp : BrowserPool) :
  well_formed bp ->
  List.NoDup p ->
  (forall i, In i p -> In i (pool bp) \/ i = next_id bp) ->
  well_formed (mkPool (<[ next_id bp := mkInstance (next_id bp) now true ]> (heap bp))
                 p (S (next_id bp)) (quit_log bp) (running bp)).
Proof.
  intros [Hnd Hp Hh] Hp' Hsub. split; simpl.
  - exact Hp'.
  - intros i Hi. destruct (decide (next_id bp = i)) as [->|Hne].
    + rewrite lookup_insert_eq. eauto.
    + rewrite lookup_insert_ne by exact Hne.
      destruct (Hsub i Hi) as [H| ->]; [auto | congruence].
  - intros i inst Hi. destruct (decide (next_id bp = i)) as [<-|Hne].
    + rewrite lookup_insert_eq in Hi. injection Hi as <-. simpl. lia.
    + rewrite lookup_insert_ne in Hi by exact Hne.
      destruct (Hh i inst Hi). lia.
Qed.

Lemma well_formed_get_browser (cfg : Settings) (now : Z) (launch : bool)
    (bp : BrowserPool) :
  well_formed bp -> well_formed (fst (get_browser cfg now launch bp)).
Proof.
  intros Hwf. unfold get_browser.
  destruct (List.find _ _) as [i|]; simpl.
  { apply well_formed_touch. exact Hwf. }
  destruct (_ <? _); destruct launch; simpl; try exact Hwf.
  - apply well_formed_alloc; [exact Hwf| |].
    + apply List.NoDup_app.
      * apply Hwf.
      * repeat constructor. simpl. tauto.
      * intros i Hi [<-|[]]. exact (fresh_not_pooled bp Hwf Hi).
    + intros i Hi. apply in_app_or in Hi. simpl in Hi. intuition.
  - apply well_formed_alloc; [exact Hwf|apply Hwf|tauto].
Qed.

Lemma well_formed_cleanup (cfg : Settings) (now : Z) (bp : BrowserPool) :
  well_formed bp -> well_formed (cleanup cfg now bp).
Proof.
  intros Hwf. pose proof (cleanup_pool cfg now bp (wf_nodup _ Hwf)) as Hp.
  unfold cleanup in *.
  destruct (quit_all_fields (browsers_to_remove cfg now bp) bp)
    as (Hh & Hn & _ & _ & _).
  destruct Hwf as [Hnd Hpool Hheap]. split.
  - rewrite Hp. apply filter_NoDup. exact Hnd.
  - intros i Hi. rewrite Hp in Hi. apply filter_In in Hi. rewrite Hh.
    apply Hpool. tauto.
  - rewrite Hh, Hn. exact Hheap.
Qed.

Lemma well_formed_step (cfg : Settings) (bp : BrowserPool) (o : Op) :
  well_formed bp -> well_formed (step cfg bp o).
Proof.
  intros Hwf. destruct o as [now launch|now i|now|]; simpl.
  - apply well_formed_get_browser. exact Hwf.
  - apply well_formed_touch. exact Hwf.
  - apply well_formed_cleanup. exact Hwf.
  - destruct Hwf as [_ _ Hh]. split; simpl; [constructor|tauto|exact Hh].
Qed.

Lemma well_formed_steps (cfg : Settings) (ops : list Op) (bp : BrowserPool) :
  well_formed bp -> well_formed (fold_left (step cfg) ops bp).
Proof.
  revert bp. induction ops as [|o ops IH]; intros bp Hwf; simpl; [exact Hwf|].
  apply IH. apply well_formed_step. exact Hwf.
Qed.

Lemma well_formed_run (cfg : Settings) (ops : list Op) :
  well_formed (run cfg ops).
Proof. apply well_formed_steps. apply well_formed_empty. Qed.

(** *** Size of the pool *)

Lemma list_remove_all_length (rs l : list nat) :
  (length (fold_left (fun p i => list_remove i p) rs l) <= length l)%nat.
Proof.
  revert l. induction rs as [|r rs IH]; intros l; simpl; [lia|].
  specialize (IH (list_remove r l)).
  pose proof (list_remove_length r l). lia.
Qed.

Lemma list_remove_all_subset (rs l : list nat) (j : nat) :
  In j (fold_left (fun p i => list_remove i p) rs l) -> In j l.
Proof.
  revert l. induction rs as [|r rs IH]; intros l; simpl; [tauto|].
  intros H. apply IH in H. eapply list_remove_subset. exact H.
Qed.

Lemma find_all_busy (h : gmap nat BrowserInstance) (p : list nat) :
  (forall i, In i p -> is_idle h i = false) -> List.find (is_idle h) p = None.
Proof.
  induction p as [|k p IH]; simpl; intros H; [reflexivity|].
  rewrite (H k) by tauto. apply IH. intros i Hi. apply H. tauto.
Qed.

Lemma size_step (cfg : Settings) (bp : BrowserPool) (o : Op) :
  0 <= BROWSER_POOL_SIZE cfg ->
  Z.of_nat (length (pool bp)) <= BROWSER_POOL_SIZE cfg ->
  Z.of_nat (length (pool (step cfg bp o))) <= BROWSER_POOL_SIZE cfg.
Proof.
  intros HN Hle. destruct o as [now launch|now i|now|]; simpl.
  - unfold get_browser. destruct (List.find _ _); simpl; [exact Hle|].
    destruct (_ <? _) eqn:E; destruct launch; simpl; try exact Hle.
    apply Z.ltb_lt in E. rewrite length_app. simpl. lia.
  - exact Hle.
  - unfold cleanup.
    destruct (quit_all_fields (browsers_to_remove cfg now bp) bp)
      as (_ & _ & _ & Hp & _).
    rewrite Hp.
    pose proof (list_remove_all_length (browsers_to_remove cfg now bp) (pool bp)).
    lia.
  - exact HN.
Qed.

Lemma size_steps (cfg : Settings) (ops : list Op) (bp : BrowserPool) :
  0 <= BROWSER_POOL_SIZE cfg ->
  Z.of_nat (length (pool bp)) <= BROWSER_POOL_SIZE cfg ->
  Z.of_nat (length (pool (fold_left (step cfg) ops bp))) <= BROWSER_POOL_SIZE cfg.
Proof.
  intros HN. revert bp. induction ops as [|o ops IH]; intros bp Hle; simpl.
  - exact Hle.
  - apply IH. apply size_step; assumption.
Qed.

(** An object that exists and that the pool does not refer to stays
    outside the pool whatever happens next. *)
Lemma outside_step (cfg : Settings) (bp : BrowserPool) (o : Op) (i : nat) :
  (i < next_id bp)%nat -> ~ In i (pool bp) ->
  (i < next_id (step cfg bp o))%nat /\ ~ In i (pool (step cfg bp o)).
Proof.
  intros Hlt Hout. destruct o as [now launch|now j|now|]; simpl.
  - unfold get_browser. destruct (List.find _ _); simpl; [tauto|].
    destruct (_ <? _); destruct launch; simpl; try tauto.
    + split; [lia|]. intros Hin. apply in_app_or in Hin. simpl in Hin.
      destruct Hin as [Hin|[Heq|[]]]; [tauto|lia].
    + split; [lia|exact Hout].
  - tauto.
  - unfold cleanup.
    destruct (quit_all_fields (browsers_to_remove cfg now bp) bp)
      as (_ & Hn & _ & Hp & _).
    rewrite Hn, Hp. split; [exact Hlt|].
    intros Hin. apply list_remove_all_subset in Hin. tauto.
  - tauto.
Qed.

Lemma outside_steps (cfg : Settings) (ops : list Op) (bp : BrowserPool) (i : nat) :
  (i < next_id bp)%nat -> ~ In i (pool bp) ->
  ~ In i (pool (fold_left (step cfg) ops bp)).
Proof.
  revert bp. induction ops as [|o ops IH]; intros bp Hlt Hout; simpl.
  - exact Hout.
  - destruct (outside_step cfg bp o i Hlt Hout). apply IH; assumption.
Qed.

(** C7. With a capacity [N >= 0], after every history of borrows,
    releases, sweeps and shutdowns the pool holds at most [N] instances.
    A borrow at a moment when the pool holds [N] instances, all in use,
    lends an instance and leaves the pool as it is; no later history puts
    that instance into the pool, and releasing it at any later moment
    leaves the pool unchanged. *)
Theorem pool_never_exceeds_capacity (cfg : Settings) :
  0 <= BROWSER_POOL_SIZE cfg ->
  (forall ops,
     Z.of_nat (length (pool (run cfg ops))) <= BROWSER_POOL_SIZE cfg)
  /\ (forall ops now,
        let bp := run cfg ops in
        Z.of_nat (length (pool bp)) = BROWSER_POOL_SIZE cfg ->
        (forall i, In i (pool bp) -> is_idle (heap bp) i = false) ->
        exists bp' i,
          get_browser cfg now true bp = (bp', Some i)
          /\ pool bp' = pool bp
          /\ forall later,
               let bp'' := fold_left (step cfg) later bp' in
               ~ In i (pool bp'')
               /\ forall t, pool (release t i bp'') = pool bp'').
Proof.
  intros HN. split.
  - intros ops. apply size_steps; [exact HN|simpl; exact HN].
  - intros ops now bp Hfull Hbusy.
    pose proof (well_formed_run cfg ops) as Hwf. fold bp in Hwf.
    unfold get_browser. rewrite (find_all_busy _ _ Hbusy).
    destruct (_ <? _) eqn:E; [apply Z.ltb_lt in E; lia|].
    eexists _, _. split; [reflexivity|]. split; [reflexivity|].
    intros later. split; [|reflexivity].
    apply outside_steps; simpl; [lia|].
    apply fresh_not_pooled. exact Hwf.
Qed.

Lemma pool_never_exceeds_capacity_witness :
  let cfg := mkSettings 2 300 in
  let ops := [Borrow 0 true; Borrow 1 true] in
  0 <= BROWSER_POOL_SIZE cfg
  /\ Z.of_nat (length (pool (run cfg (ops ++ [Borrow 2 true])))) <= 2
  /\ exists bp' i,
       get_browser cfg 2 true (run cfg ops) = (bp', Some i)
       /\ pool bp' = pool (run cfg ops)
       /\ ~ In i (pool (fold_left (step cfg) [Release 3 i; Sweep 500] bp')).
Proof.
  intros cfg ops.
  assert (HN : 0 <= BROWSER_POOL_SIZE cfg) by (simpl; lia).
  destruct (pool_never_exceeds_capacity cfg HN) as [Hsize Htemp].
  split; [exact HN|]. split; [exact (Hsize (ops ++ [Borrow 2 true]))|].
  destruct (Htemp ops 2) as (bp' & i & Hget & Hpool & Hlater).
  - reflexivity.
  - intros i [<-|[<-|[]]]; reflexivity.
  - exists bp', i. split; [exact Hget|]. split; [exact Hpool|].
    exact (proj1 (Hlater [Release 3 i; Sweep 500])).
Defined.

(** *** The eviction sweep *)

Lemma drivers_of_pooled (bp : BrowserPool) (rs : list nat) :
  well_formed bp -> (forall i, In i rs -> In i (pool bp)) ->
  drivers_of (heap bp) rs = rs.
Proof.
  intros Hwf. unfold drivers_of.
  induction rs as [|r rs IH]; intros Hsub; simpl; [reflexivity|].
  destruct (wf_pool _ Hwf r) as [inst Hinst]; [apply Hsub; simpl; tauto|].
  rewrite Hinst. destruct (wf_heap _ Hwf r inst Hinst) as [_ ->].
  simpl. f_equal. apply IH. intros i Hi. apply Hsub. simpl. tauto.
Qed.

(** C10. One sweep at time [now], after any history of the pool:
    the pool keeps, in order, the instances that are in use or whose
    idle time [now - last_used] is at most the limit, and loses the
    others; [quit()] is called on the drivers of the instances lost and
    on no other; an instance in use stays, whatever its age. *)
Theorem sweep_evicts_exactly_idle (cfg : Settings) (ops : list Op) (now : Z) :
  let bp := run cfg ops in
  let bp' := cleanup cfg now bp in
  pool bp' = List.filter (fun i => negb (evictable cfg now (heap bp) i)) (pool bp)
  /\ quit_log bp' = quit_log bp ++ List.filter (evictable cfg now (heap bp)) (pool bp)
  /\ heap bp' = heap bp
  /\ (forall i, In i (pool bp) ->
        exists inst,
          heap bp !! i = Some inst /\ driver inst = i
          /\ (In i (pool bp') <->
              in_use inst = true \/ now - last_used inst <= BROWSER_MAX_IDLE_TIME cfg)
          /\ (In i (List.filter (evictable cfg now (heap bp)) (pool bp)) <->
              in_use inst = false /\ BROWSER_MAX_IDLE_TIME cfg < now - last_used inst))
  /\ (forall i inst, In i (pool bp) -> heap bp !! i = Some inst ->
        in_use inst = true -> In i (pool bp')).
Proof.
  intros bp bp'.
  pose proof (well_formed_run cfg ops) as Hwf. fold bp in Hwf.
  pose proof (cleanup_pool cfg now bp (wf_nodup _ Hwf)) as Hp. fold bp' in Hp.
  destruct (quit_all_fields (browsers_to_remove cfg now bp) bp)
    as (Hh & _ & _ & _ & Hq).
  fold (cleanup cfg now bp) in Hh, Hq. fold bp' in Hh, Hq.
  assert (Hev : forall i inst, heap bp !! i = Some inst ->
            (evictable cfg now (heap bp) i = true <->
             in_use inst = false /\ BROWSER_MAX_IDLE_TIME cfg < now - last_used inst)).
  { intros i inst Hi. unfold evictable. rewrite Hi.
    rewrite andb_true_iff, negb_true_iff, Z.ltb_lt. tauto. }
  split; [exact Hp|]. split.
  { rewrite Hq. f_equal. apply drivers_of_pooled; [exact Hwf|].
    intros i Hi. apply filter_In in Hi. tauto. }
  split; [exact Hh|]. split.
  - intros i Hi. destruct (wf_pool _ Hwf i Hi) as [inst Hinst].
    exists inst. split; [exact Hinst|].
    split; [exact (proj2 (wf_heap _ Hwf i inst Hinst))|].
    specialize (Hev i inst Hinst). split.
    + rewrite Hp, filter_In, negb_true_iff.
      destruct (evictable cfg now (heap bp) i); destruct (in_use inst);
        intuition (try discriminate; try lia).
    + rewrite filter_In. tauto.
  - intros i inst Hi Hinst Huse. rewrite Hp. apply filter_In.
    split; [exact Hi|]. unfold evictable. rewrite Hinst, Huse. reflexivity.
Qed.

Lemma sweep_evicts_exactly_idle_witness :
  let cfg := mkSettings 2 300 in
  let ops := [Borrow 0 true; Borrow 1 true; Release 2 0%nat] in
  pool (run cfg ops) = [0%nat; 1%nat]
  /\ pool (cleanup cfg 400 (run cfg ops)) = [1%nat]
  /\ quit_log (cleanup cfg 400 (run cfg ops)) = [0%nat]
  /\ In 1%nat (pool (cleanup cfg 5000 (run cfg ops))).
Proof.
  intros cfg ops.
  destruct (sweep_evicts_exactly_idle cfg ops 400) as (Hp & Hq & _).
  destruct (sweep_evicts_exactly_idle cfg ops 5000) as (_ & _ & _ & _ & Hkeep).
  split; [reflexivity|]. split; [rewrite Hp; reflexivity|].
  split; [rewrite Hq; reflexivity|].
  apply (Hkeep 1%nat (mkInstance 1 1 true));
    [right; left; reflexivity|reflexivity|reflexivity].
Defined.

(** *** Release *)

(** Releasing an instance, pooled or not, marks it free and stamps it. *)
Lemma release_marks_available (now : Z) (i : nat) (bp : BrowserPool)
    (inst : BrowserInstance) :
  heap bp !! i = Some inst ->
  heap (release now i bp) !! i = Some (mkInstance (driver inst) now false).
Proof. intros H. unfold release. simpl. rewrite lookup_alter_eq, H. reflexivity. Qed.

(** Releasing never calls [quit()] and never touches the list. *)
Lemma release_closes_nothing (now : Z) (i : nat) (bp : BrowserPool) :
  quit_log (release now i bp) = quit_log bp /\ pool (release now i bp) = pool bp.
Proof. split; reflexivity. Qed.

Lemma quit_log_step (cfg : Settings) (bp : BrowserPool) (o : Op) :
  well_formed bp ->
  exists closed,
    quit_log (step cfg bp o) = quit_log bp ++ closed
    /\ forall d, In d closed -> In d (pool bp).
Proof.
  intros Hwf. destruct o as [now launch|now i|now|]; simpl.
  - exists []. rewrite app_nil_r. split; [|simpl; tauto].
    unfold get_browser. destruct (List.find _ _); [reflexivity|].
    destruct (_ <? _); destruct launch; reflexivity.
  - exists []. rewrite app_nil_r. split; [reflexivity|simpl; tauto].
  - exists (browsers_to_remove cfg now bp). unfold cleanup.
    destruct (quit_all_fields (browsers_to_remove cfg now bp) bp)
      as (_ & _ & _ & _ & Hq).
    assert (Hsub : forall d, In d (browsers_to_remove cfg now bp) -> In d (pool bp)).
    { intros d Hd. apply filter_In in Hd. tauto. }
    rewrite Hq, (drivers_of_pooled bp _ Hwf Hsub). tauto.
  - exists (pool bp). split; [|tauto].
    pose proof (drivers_of_pooled bp (pool bp) Hwf (fun d H => H)) as Hd.
    unfold drivers_of in Hd. rewrite Hd. reflexivity.
Qed.

(** The pool only closes browsers it has created. *)
Lemma quit_log_below (cfg : Settings) (ops : list Op) :
  forall d, In d (quit_log (run cfg ops)) -> (d < next_id (run cfg ops))%nat.
Proof.
  unfold run.
  assert (Hgen : forall bp,
            well_formed bp ->
            (forall d, In d (quit_log bp) -> (d < next_id bp)%nat) ->
            forall d, In d (quit_log (fold_left (step cfg) ops bp)) ->
                      (d < next_id (fold_left (step cfg) ops bp))%nat).
  { induction ops as [|o ops IH]; intros bp Hwf Hlog; simpl; [exact Hlog|].
    apply IH; [apply well_formed_step; exact Hwf|].
    intros d Hd.
    destruct (quit_log_step cfg bp o Hwf) as (closed & Hq & Hclosed).
    rewrite Hq in Hd. apply in_app_or in Hd.
    assert (Hd' : (d < next_id bp)%nat).
    { destruct Hd as [Hd|Hd]; [apply Hlog, Hd|].
      destruct (wf_pool _ Hwf d (Hclosed d Hd)) as [inst Hinst].
      apply (wf_heap _ Hwf d inst Hinst). }
    destruct o as [now launch|now i|now|]; simpl; try exact Hd'.
    - unfold get_browser. destruct (List.find _ _); simpl; [exact Hd'|].
      destruct (_ <? _); destruct launch; simpl; lia.
    - unfold cleanup.
      destruct (quit_all_fields (browsers_to_remove cfg now bp) bp)
        as (_ & Hn & _). rewrite Hn. exact Hd'. }
  apply Hgen; [apply well_formed_empty|simpl; tauto].
Qed.

Lemma never_quit_steps (cfg : Settings) (ops : list Op) (bp : BrowserPool)
    (i : nat) :
  well_formed bp -> (i < next_id bp)%nat ->
  ~ In i (pool bp) -> ~ In i (quit_log bp) ->
  ~ In i (quit_log (fold_left (step cfg) ops bp)).
Proof.
  revert bp. induction ops as [|o ops IH]; intros bp Hwf Hlt Hout Hlog; simpl.
  - exact Hlog.
  - destruct (outside_step cfg bp o i Hlt Hout) as [Hlt' Hout'].
    apply IH; [apply well_formed_step; exact Hwf|exact Hlt'|exact Hout'|].
    destruct (quit_log_step cfg bp o Hwf) as (closed & Hq & Hclosed).
    rewrite Hq. intros Hin. apply in_app_or in Hin.
    destruct Hin as [Hin|Hin]; [tauto|]. apply Hout, Hclosed, Hin.
Qed.

(** The browser of a temporary instance is never closed: after any
    history, a borrow from a full pool whose instances are all in use
    lends an instance on whose driver no later release, sweep or shutdown
    calls [quit()]. *)
Lemma temporary_browser_never_closed (cfg : Settings) (ops : list Op) (now : Z) :
  let bp := run cfg ops in
  Z.of_nat (length (pool bp)) = BROWSER_POOL_SIZE cfg ->
  (forall i, In i (pool bp) -> is_idle (heap bp) i = false) ->
  exists bp' i,
    get_browser cfg now true bp = (bp', Some i)
    /\ heap bp' !! i = Some (mkInstance i now true)
    /\ forall later, ~ In i (quit_log (fold_left (step cfg) later bp')).
Proof.
  intros bp Hfull Hbusy.
  pose proof (well_formed_run cfg ops) as Hwf. fold bp in Hwf.
  pose proof (well_formed_get_browser cfg now true bp Hwf) as Hwf'.
  revert Hwf'. unfold get_browser. rewrite (find_all_busy _ _ Hbusy).
  destruct (_ <? _) eqn:E; [apply Z.ltb_lt in E; lia|].
  cbn [fst]. intros Hwf'.
  eexists _, _. split; [reflexivity|]. split; [simpl; apply lookup_insert_eq|].
  intros later. apply never_quit_steps; simpl.
  - exact Hwf'.
  - lia.
  - apply fresh_not_pooled. exact Hwf.
  - intros Hin. apply (quit_log_below cfg ops) in Hin. fold bp in Hin. lia.
Qed.

(** C6. A pool of capacity 1 is borrowed from twice, so that the second
    instance (number 1) is temporary, and the temporary instance is
    released at time 7.  The release marks it free and stamps it, as it
    does for a pooled one, but calls [quit()] on no driver; the pool does
    not refer to the instance, so neither a later sweep nor a shutdown
    closes its browser. *)
Theorem release_leaves_temporary_browser_open :
  let cfg := mkSettings 1 300 in
  let bp := run cfg [Borrow 0 true; Borrow 1 true] in
  let bp' := release 7 1%nat bp in
  pool bp = [0%nat]
  /\ pooled bp 1%nat = false
  /\ heap bp' !! 1%nat = Some (mkInstance 1 7 false)
  /\ quit_log bp' = []
  /\ quit_log (shutdown (cleanup cfg 1000 bp')) = [0%nat].
Proof. repeat split; reflexivity. Qed.

End PoolSpec.

(** ** The queue-driven crawler *)

Module CrawlerSpec.
Import Web Crawler.

(** *** One turn of the loop *)

Lemma load_page_outcome (e : Env) (cfg : Settings) (url : string) (depth : Z)
    (st st0 : State) :
  url ∉ visited_urls st0 ->
  depth <= max_depth cfg ->
  visited_urls st = visited_urls st0 ->
  url_queue st = url_queue st0 ->
  results st = results st0 ->
  loads st = loads st0 ->
  outcome e cfg url depth st0
    (match load_page e cfg url depth st with
     | (st', Some data) =>
         mkState (visited_urls st') (url_queue st') (results st' ++ [data])
           (pages_crawled_per_domain st') (loads st')
     | (st', None) => st'
     end).
Proof.
  intros Hfresh Hdepth Hv Hq Hr Hl. unfold load_page.
  destruct (driver e url) as [pg|] eqn:Hload.
  - destruct (depth <? max_depth cfg) eqn:Hlt; cbn [visited_urls url_queue
      results pages_crawled_per_domain loads]; rewrite Hv, Hq, Hr, Hl.
    + apply Z.ltb_lt in Hlt.
      eapply recorded; eauto.
      apply List.Forall_forall. intros link Hin.
      apply filter_In in Hin. destruct Hin as [Hin _].
      apply filter_In in Hin. destruct Hin as [_ Hin]. exact Hin.
    + match goal with
      | |- outcome _ _ _ _ _ (mkState _ _ _ ?counters _) =>
          pose proof (recorded e cfg url depth st0 pg counters [] st0
                        Hload Hfresh Hdepth (or_introl eq_refl)
                        (List.Forall_nil _)) as Hrec
      end.
      simpl in Hrec. rewrite app_nil_r in Hrec. exact Hrec.
  - cbn [visited_urls url_queue results pages_crawled_per_domain loads].
    rewrite Hv, Hq, Hr, Hl. apply failed; assumption.
Qed.

Lemma crawl_item_outcome (e : Env) (cfg : Settings) (url : string) (depth : Z)
    (st : State) :
  outcome e cfg url depth st (crawl_item e cfg url depth st).
Proof.
  unfold crawl_item. case_bool_decide as Hvis; [apply skipped|].
  unfold crawl_page.
  destruct (max_depth cfg <? depth) eqn:Hd; [apply skipped|].
  apply Z.ltb_ge in Hd.
  case_bool_decide; [contradiction|].
  destruct (pages_crawled_per_domain st !! get_domain e url) as [n|].
  - destruct (max_pages_per_domain cfg <=? n); [apply skipped|].
    apply load_page_outcome; auto.
  - apply load_page_outcome; auto.
Qed.

(** *** Invariants of the loop *)

Lemma crawl_loop_invariant (e : Env) (cfg : Settings) (P : State -> Prop) :
  (forall st url depth rest,
     url_queue st = (url, depth) :: rest -> P st ->
     P (crawl_item e cfg url depth (pop st rest))) ->
  forall fuel st st',
    P st -> crawl_loop e cfg fuel st = Some st' -> P st'.
Proof.
  intros Hstep fuel. induction fuel as [|fuel IH]; intros st st' HP Hrun.
  - simpl in Hrun. destruct (url_queue st) as [|[url depth] rest]; [|discriminate].
    injection Hrun as <-. exact HP.
  - simpl in Hrun.
    destruct (url_queue st) as [|[url depth] rest] eqn:Hq.
    + injection Hrun as <-. exact HP.
    + eapply IH; [|exact Hrun]. apply Hstep; assumption.
Qed.

Lemma crawl_loop_empties_queue (e : Env) (cfg : Settings) (fuel : nat)
    (st st' : State) :
  crawl_loop e cfg fuel st = Some st' -> url_queue st' = [].
Proof.
  revert st. induction fuel as [|fuel IH]; intros st Hrun; simpl in Hrun;
    destruct (url_queue st) as [|[url depth] rest] eqn:Hq;
    try discriminate; try (injection Hrun as <-; exact Hq).
  eapply IH. exact Hrun.
Qed.

(** *** Termination *)

Lemma crawl_loop_drain (e : Env) (cfg : Settings) (k : nat)
    (q1 q2 : list (string * Z)) (st : State) :
  url_queue st = q1 ++ q2 ->
  Forall (fun item => (levels_left cfg item <= k)%nat) q1 ->
  exists n st' children,
    url_queue st' = q2 ++ children
    /\ Forall (fun item => (levels_left cfg item < k)%nat) children
    /\ forall m, crawl_loop e cfg (n + m) st = crawl_loop e cfg m st'.
Proof.
  revert q2 st. induction q1 as [|[url depth] q1 IH]; intros q2 st Hq Hk.
  - exists 0%nat, st, []. rewrite app_nil_r. auto.
  - inversion Hk as [|? ? Hitem Hk']; subst.
    pose proof (crawl_item_outcome e cfg url depth (pop st (q1 ++ q2))) as Hout.
    set (st1 := crawl_item e cfg url depth (pop st (q1 ++ q2))) in *.
    assert (Hq1 : exists cs, url_queue st1 = q1 ++ (q2 ++ cs)
                   /\ Forall (fun item => (levels_left cfg item < k)%nat) cs).
    { inversion Hout as [Heq|counters Hload Hfresh Heq
                         |pg counters links st2 Hload Hfresh Hd Hlinks Hfollow Heq].
      - exists []. rewrite app_nil_r. split; [reflexivity|constructor].
      - exists []. rewrite app_nil_r. split; [reflexivity|constructor].
      - exists (List.map (fun link => (link, depth + 1)) links).
        simpl. rewrite app_assoc. split; [reflexivity|].
        apply List.Forall_forall. intros item Hin. apply in_map_iff in Hin.
        destruct Hin as (link & <- & Hin).
        destruct Hlinks as [->|Hlt]; [contradiction|].
        unfold levels_left in *. simpl in *. lia. }
    destruct Hq1 as (cs & Hq1 & Hcs).
    destruct (IH (q2 ++ cs) st1 Hq1 Hk') as (n & st' & children & Hq' & Hch & Hrun).
    exists (S n), st', (cs ++ children). split; [|split].
    + rewrite Hq'. rewrite app_assoc. reflexivity.
    + apply List.Forall_app. auto.
    + intros m. simpl. rewrite Hq. simpl. apply Hrun.
Qed.

Lemma crawl_loop_terminates_below (e : Env) (cfg : Settings) (k : nat) :
  forall st,
    Forall (fun item => (levels_left cfg item <= k)%nat) (url_queue st) ->
    exists n st', forall m, crawl_loop e cfg (n + m) st = Some st'.
Proof.
  induction k as [|k IH]; intros st Hk.
  - destruct (crawl_loop_drain e cfg 0 (url_queue st) [] st)
      as (n & st' & children & Hq & Hch & Hrun);
      [symmetry; apply app_nil_r|exact Hk|].
    destruct children as [|c children].
    + exists n, st'. intros m. rewrite Hrun.
      destruct m; simpl; rewrite Hq; reflexivity.
    + inversion Hch; lia.
  - destruct (crawl_loop_drain e cfg (S k) (url_queue st) [] st)
      as (n & st' & children & Hq & Hch & Hrun);
      [symmetry; apply app_nil_r|exact Hk|].
    destruct (IH st') as (n' & st'' & Hrun').
    { rewrite Hq. simpl. eapply List.Forall_impl; [|exact Hch].
      simpl. intros. lia. }
    exists (n + n')%nat, st''. intros m.
    rewrite <- Nat.add_assoc, Hrun. apply Hrun'.
Qed.

(** The crawl returns: from some number of turns on, the loop ends with
    an empty queue, always in the same state. *)
Lemma queue_crawl_terminates (e : Env) (cfg : Settings) (start_url : string) :
  exists n res, forall m, crawl e cfg (n + m) start_url = Some res.
Proof.
  destruct (crawl_loop_terminates_below e cfg
              (levels_left cfg (start_url, 0)) (initial_state start_url))
    as (n & st' & Hrun).
  { repeat constructor. }
  exists n, (results st'). intros m. unfold crawl. rewrite Hrun. reflexivity.
Qed.

Lemma crawl_loop_more_fuel (e : Env) (cfg : Settings) (n m : nat)
    (st st' : State) :
  crawl_loop e cfg n st = Some st' -> crawl_loop e cfg (n + m) st = Some st'.
Proof.
  revert st. induction n as [|n IH]; intros st Hrun; simpl in Hrun.
  - destruct (url_queue st) as [|[url depth] rest] eqn:Hq; [|discriminate].
    injection Hrun as <-. destruct m; simpl; rewrite Hq; reflexivity.
  - simpl. destruct (url_queue st) as [|[url depth] rest]; [exact Hrun|].
    apply IH. exact Hrun.
Qed.

Lemma crawl_more_fuel (e : Env) (cfg : Settings) (n m : nat)
    (start_url : string) (res : list PageRecord) :
  crawl e cfg n start_url = Some res -> crawl e cfg (n + m) start_url = Some res.
Proof.
  unfold crawl. intros Hrun.
  destruct (crawl_loop e cfg n (initial_state start_url)) as [st'|] eqn:E;
    [|discriminate].
  rewrite (crawl_loop_more_fuel e cfg n m _ st' E). exact Hrun.
Qed.

(** *** Failed loads *)

Lemma loads_once_item (e : Env) (cfg : Settings) (st : State) (url : string)
    (depth : Z) (rest : list (string * Z)) :
  loads_once e st -> loads_once e (crawl_item e cfg url depth (pop st rest)).
Proof.
  intros (Hnd & Hvis & Hres).
  pose proof (crawl_item_outcome e cfg url depth (pop st rest)) as Hout.
  inversion Hout as [Heq|counters Hload Hfresh Heq
                     |pg counters links st2 Hload Hfresh Hd Hlinks Hfollow Heq];
    simpl in *.
  - repeat split; assumption.
  - repeat split; simpl.
    + apply List.NoDup_app; [exact Hnd|repeat constructor; simpl; tauto|].
      intros u Hu [<-|[]]. apply Hfresh, Hvis, Hu.
    + intros u Hu. apply in_app_or in Hu. destruct Hu as [Hu|[<-|[]]].
      * apply elem_of_union_r, Hvis, Hu.
      * apply elem_of_union_l, elem_of_singleton. reflexivity.
    + exact Hres.
  - repeat split; simpl.
    + apply List.NoDup_app; [exact Hnd|repeat constructor; simpl; tauto|].
      intros u Hu [<-|[]]. apply Hfresh, Hvis, Hu.
    + intros u Hu. apply in_app_or in Hu. destruct Hu as [Hu|[<-|[]]].
      * apply elem_of_union_r, Hvis, Hu.
      * apply elem_of_union_l, elem_of_singleton. reflexivity.
    + intros r Hr. apply in_app_or in Hr. destruct Hr as [Hr|[<-|[]]].
      * apply Hres, Hr.
      * simpl. rewrite Hload. discriminate.
Qed.

(** C9. The crawl returns whatever pages fail.  When the item at the
    head of the queue is a URL whose load fails, the turn leaves the
    result list as it was and the loop goes on with exactly the items that
    were queued behind it.  At the end of a crawl the queue is empty, no
    URL has been loaded twice and every record is that of a page that
    loaded. *)
Theorem failed_page_is_skipped (e : Env) (cfg : Settings) :
  (forall start_url,
     exists n res, forall m, crawl e cfg (n + m) start_url = Some res)
  /\ (forall st url depth rest fuel,
        url_queue st = (url, depth) :: rest ->
        driver e url = None ->
        exists st',
          crawl_loop e cfg (S fuel) st = crawl_loop e cfg fuel st'
          /\ url_queue st' = rest
          /\ results st' = results st)
  /\ (forall fuel start_url st',
        crawl_loop e cfg fuel (initial_state start_url) = Some st' ->
        url_queue st' = []
        /\ List.NoDup (loads st')
        /\ forall r, In r (results st') -> driver e (rec_url r) <> None).
Proof.
  split; [|split].
  - intros start_url. apply queue_crawl_terminates.
  - intros st url depth rest fuel Hq Hload.
    exists (crawl_item e cfg url depth (pop st rest)).
    split; [simpl; rewrite Hq; reflexivity|].
    pose proof (crawl_item_outcome e cfg url depth (pop st rest)) as Hout.
    inversion Hout as [Heq|counters Hload' Hfresh Heq
                       |pg counters links st2 Hload' Hfresh Hd Hlinks Hfollow Heq];
      simpl; [tauto|tauto|congruence].
  - intros fuel start_url st' Hrun. split.
    + eapply crawl_loop_empties_queue. exact Hrun.
    + assert (Hinv : loads_once e st').
      { eapply (crawl_loop_invariant e cfg (loads_once e)); [| |exact Hrun].
        - intros st url depth rest _. apply loads_once_item.
        - repeat split; simpl; [constructor|tauto|tauto]. }
      destruct Hinv as (Hnd & _ & Hres). tauto.
Qed.

Lemma failed_page_is_skipped_witness :
  let e := Sites.one_timeout in
  let st := mkState {[ "https://a.com/" ]}
              [("https://a.com/slow", 1); ("https://a.com/ok", 1)]
              [page_data e "https://a.com/" 0 (Sites.linking [])]
              {[ "a.com" := 1 ]} ["https://a.com/"] in
  driver e "https://a.com/slow" = None
  /\ (exists st',
        crawl_loop e default_settings 3 st = crawl_loop e default_settings 2 st'
        /\ url_queue st' = [("https://a.com/ok", 1)]
        /\ results st' = results st)
  /\ (List.map rec_url <$> crawl e default_settings 3 "https://a.com/")
     = Some ["https://a.com/"; "https://a.com/ok"]
  /\ exists st',
       crawl_loop e default_settings 3 (initial_state "https://a.com/") = Some st'
       /\ List.NoDup (loads st').
Proof.
  intros e st.
  destruct (failed_page_is_skipped e default_settings) as (_ & Hskip & Hend).
  split; [reflexivity|]. split.
  - exact (Hskip st "https://a.com/slow" 1 [("https://a.com/ok", 1)] 2%nat
             eq_refl eq_refl).
  - split; [vm_compute; reflexivity|].
    destruct (crawl_loop e default_settings 3 (initial_state "https://a.com/"))
      as [st'|] eqn:Hrun; [|vm_compute in Hrun; discriminate].
    exists st'. split; [reflexivity|].
    exact (proj1 (proj2 (Hend 3%nat "https://a.com/" st' Hrun))).
Defined.

(** *** Order of the records *)

Lemma ascending_level_order (depths : list Z) :
  ascending depths -> level_order depths.
Proof.
  intros Hasc i j d Hi Hj.
  destruct (Nat.lt_trichotomy i j) as [Hlt|[->|Hgt]]; [exact Hlt| |].
  - rewrite Hi in Hj. injection Hj as Hj. lia.
  - specialize (Hasc j i _ _ Hgt Hj Hi). lia.
Qed.

Lemma ascending_snoc (depths : list Z) (d : Z) :
  ascending depths -> (forall a, In a depths -> a <= d) ->
  ascending (depths ++ [d]).
Proof.
  intros Hasc Hle i j a b Hij Hi Hj.
  assert (Hj' : (j < length (depths ++ [d]))%nat)
    by (eapply lookup_lt_Some; exact Hj).
  rewrite length_app in Hj'. simpl in Hj'.
  rewrite lookup_app_l in Hi by lia.
  destruct (decide (j < length depths)%nat) as [Hlt|Hge].
  - rewrite lookup_app_l in Hj by exact Hlt. exact (Hasc i j a b Hij Hi Hj).
  - assert (j = length depths) as -> by lia.
    rewrite lookup_app_r, Nat.sub_diag in Hj by lia.
    injection Hj as <-. apply Hle.
    apply list_elem_of_In. eapply list_elem_of_lookup_2. exact Hi.
Qed.

Lemma by_levels_outcome (e : Env) (cfg : Settings) (url : string) (depth level : Z)
    (q1 q2 : list (string * Z)) (st st' : State) :
  outcome e cfg url depth st st' ->
  url_queue st = q1 ++ q2 ->
  Forall (fun item => snd item = depth) q1 ->
  Forall (fun item => snd item = depth + 1) q2 ->
  (forall d, In d (rec_depth <$> results st) -> d <= level) ->
  level <= depth ->
  ascending (rec_depth <$> results st) ->
  by_levels st'.
Proof.
  intros Hout Hq H1 H2 Hres Hlevel Hasc.
  inversion Hout as [Heq|counters Hload Hfresh Heq
                     |pg counters links st2 Hload Hfresh Hd Hlinks Hfollow Heq].
  - subst st'. exists depth, q1, q2. repeat split; auto.
    intros d Hin. specialize (Hres d Hin). lia.
  - exists depth, q1, q2. simpl. repeat split; auto.
    intros d Hin. specialize (Hres d Hin). lia.
  - exists depth, q1, (q2 ++ List.map (fun link => (link, depth + 1)) links).
    simpl. rewrite Hq, app_assoc. split; [reflexivity|].
    split; [exact H1|]. split.
    { apply List.Forall_app. split; [exact H2|].
      apply List.Forall_forall. intros item Hin. apply in_map_iff in Hin.
      destruct Hin as (link & <- & _). reflexivity. }
    rewrite fmap_app. simpl. split.
    + intros d Hin. apply in_app_or in Hin.
      destruct Hin as [Hin|[<-|[]]]; [specialize (Hres d Hin)|]; lia.
    + apply ascending_snoc; [exact Hasc|].
      intros a Hin. specialize (Hres a Hin). lia.
Qed.

Lemma by_levels_item (e : Env) (cfg : Settings) (st : State) (url : string)
    (depth : Z) (rest : list (string * Z)) :
  url_queue st = (url, depth) :: rest ->
  by_levels st -> by_levels (crawl_item e cfg url depth (pop st rest)).
Proof.
  intros Hq (level & q1 & q2 & Hsplit & H1 & H2 & Hres & Hasc).
  pose proof (crawl_item_outcome e cfg url depth (pop st rest)) as Hout.
  rewrite Hq in Hsplit. destruct q1 as [|item q1]; simpl in Hsplit.
  - destruct q2 as [|item q2]; [discriminate|].
    injection Hsplit as <- <-. inversion H2 as [|? ? Hd H2']; subst.
    simpl in Hd.
    eapply (by_levels_outcome e cfg url depth level rest []); eauto.
    + simpl. rewrite app_nil_r. reflexivity.
    + eapply List.Forall_impl; [|exact H2']. simpl. intros. lia.
    + lia.
  - injection Hsplit as <- ->. inversion H1 as [|? ? Hd H1']; subst.
    simpl in *.
    eapply (by_levels_outcome e cfg url depth depth q1 q2); eauto. lia.
Qed.

Lemma crawl_by_levels (e : Env) (cfg : Settings) (fuel : nat)
    (start_url : string) (res : list PageRecord) :
  crawl e cfg fuel start_url = Some res -> ascending (rec_depth <$> res).
Proof.
  unfold crawl. intros Hrun.
  destruct (crawl_loop e cfg fuel (initial_state start_url)) as [st'|] eqn:E;
    [|discriminate].
  injection Hrun as <-.
  assert (Hinv : by_levels st').
  { eapply (crawl_loop_invariant e cfg by_levels); [| |exact E].
    - intros st url depth rest. apply by_levels_item.
    - exists 0, [(start_url, 0)], []. simpl.
      split; [reflexivity|]. split; [repeat constructor|].
      split; [constructor|]. split; [tauto|].
      intros i j a b _ Hi. rewrite lookup_nil in Hi. discriminate Hi. }
  destruct Hinv as (_ & _ & _ & _ & _ & _ & _ & Hasc). exact Hasc.
Qed.

(** *** Domains *)

Lemma endswith_suffix (s p : string) :
  Url.endswith s p = true -> exists pre, s = pre +:+ p.
Proof.
  induction s as [|c s IH].
  - destruct p; simpl; [|discriminate]. intros _. exists "". reflexivity.
  - cbn [Url.endswith]. destruct (String.eqb (String c s) p) eqn:E.
    + apply String.eqb_eq in E. subst p. intros _. exists "". reflexivity.
    + intros H. destruct (IH H) as [pre ->]. exists (String c pre). reflexivity.
Qed.

Lemma in_list_In (x : string) (l : list string) :
  Url.in_list x l = true <-> In x l.
Proof.
  unfold Url.in_list. rewrite existsb_exists. split.
  - intros (y & Hy & E). apply String.eqb_eq in E. subst y. exact Hy.
  - intros H. exists x. split; [exact H|apply String.eqb_refl].
Qed.

Lemma is_allowed_listed (domain : string) (restrict : list string) :
  is_allowed_domain domain restrict = true -> listed domain restrict.
Proof.
  unfold is_allowed_domain.
  destruct (Url.in_list domain restrict) eqn:E.
  - intros _. apply in_list_In in E. exists domain. tauto.
  - intros H. apply existsb_exists in H. destruct H as (allowed & Hin & H).
    exists allowed. split; [exact Hin|].
    apply orb_true_iff in H. destruct H as [H|H].
    + right. apply endswith_suffix in H. exact H.
    + left. apply String.eqb_eq. exact H.
Qed.

Lemma should_follow_unlisted (e : Env) (cfg : Settings) (st : State)
    (base_url url : string) :
  restrict_to_domains cfg <> [] ->
  follow_external_links cfg = false ->
  Url.netloc (urlparse e url) <> "" ->
  ~ listed (Url.netloc (urlparse e url)) (restrict_to_domains cfg) ->
  should_follow_url e cfg st base_url url = false.
Proof.
  intros Hne Hfe Hdom Hun. unfold should_follow_url.
  destruct (_ || _ || _); [reflexivity|].
  destruct (String.eqb _ "") eqn:E; [apply String.eqb_eq in E; contradiction|].
  destruct (is_allowed_domain _ _) eqn:Ha;
    [apply is_allowed_listed in Ha; contradiction|].
  rewrite Hfe. destruct (restrict_to_domains cfg); [contradiction|reflexivity].
Qed.

Lemma should_follow_same_domain (e : Env) (cfg : Settings) (st : State)
    (base_url url : string) :
  follow_external_links cfg = false ->
  should_follow_url e cfg st base_url url = true ->
  Url.netloc (urlparse e url) = ""
  \/ Url.netloc (urlparse e url) = get_domain e base_url.
Proof.
  intros Hfe. unfold should_follow_url.
  destruct (_ || _ || _); [discriminate|].
  destruct (String.eqb _ "") eqn:E; [apply String.eqb_eq in E; tauto|].
  destruct (_ && _ && _); [discriminate|].
  destruct (String.eqb _ (get_domain e base_url)) eqn:E';
    [apply String.eqb_eq in E'; tauto|].
  rewrite Hfe. simpl. discriminate.
Qed.

(** A URL without network location that passes the first test is
    followed: neither the patterns nor [visited_urls] are looked at. *)
Lemma should_follow_without_netloc (e : Env) (cfg : Settings) (st : State)
    (base_url url : string) :
  url <> "" -> Url.startswith url "javascript:" = false -> url <> "#" ->
  Url.netloc (urlparse e url) = "" ->
  should_follow_url e cfg st base_url url = true.
Proof.
  intros Hne Hjs Hfrag Hloc. unfold should_follow_url.
  rewrite Hjs, Hloc.
  destruct (String.eqb url "") eqn:E1; [apply String.eqb_eq in E1; contradiction|].
  destruct (String.eqb url "#") eqn:E2; [apply String.eqb_eq in E2; contradiction|].
  reflexivity.
Qed.

Lemma on_domain_item (e : Env) (cfg : Settings) (d : string) (st : State)
    (url : string) (depth : Z) (rest : list (string * Z)) :
  follow_external_links cfg = false ->
  url_queue st = (url, depth) :: rest ->
  on_domain e d st -> on_domain e d (crawl_item e cfg url depth (pop st rest)).
Proof.
  intros Hfe Hq [Hqueue Hres]. rewrite Hq in Hqueue.
  inversion Hqueue as [|? ? Hurl Hrest]; subst. simpl in Hurl.
  pose proof (crawl_item_outcome e cfg url depth (pop st rest)) as Hout.
  inversion Hout as [Heq|counters Hload Hfresh Heq
                     |pg counters links st2 Hload Hfresh Hd Hlinks Hfollow Heq];
    simpl in *.
  - split; assumption.
  - split; assumption.
  - split; simpl.
    + apply List.Forall_app. split; [exact Hrest|].
      apply List.Forall_forall. intros item Hin. apply in_map_iff in Hin.
      destruct Hin as (link & <- & Hin). simpl.
      rewrite List.Forall_forall in Hfollow.
      destruct (should_follow_same_domain e cfg st2 url link Hfe (Hfollow link Hin))
        as [E|E]; unfold get_domain in *; [tauto|].
      rewrite E. exact Hurl.
    + apply List.Forall_app. split; [exact Hres|].
      constructor; [|constructor]. exact Hurl.
Qed.

Lemma crawl_on_domain (e : Env) (cfg : Settings) (fuel : nat)
    (start_url : string) (res : list PageRecord) :
  follow_external_links cfg = false ->
  crawl e cfg fuel start_url = Some res ->
  forall r, In r res ->
    rec_domain r = get_domain e start_url \/ rec_domain r = "".
Proof.
  unfold crawl. intros Hfe Hrun.
  destruct (crawl_loop e cfg fuel (initial_state start_url)) as [st'|] eqn:E;
    [|discriminate].
  injection Hrun as <-.
  assert (Hinv : on_domain e (get_domain e start_url) st').
  { eapply (crawl_loop_invariant e cfg (on_domain e (get_domain e start_url)));
      [| |exact E].
    - intros st url depth rest. apply on_domain_item. exact Hfe.
    - split; simpl; repeat constructor. }
  destruct Hinv as [_ Hres]. rewrite List.Forall_forall in Hres. exact Hres.
Qed.

End CrawlerSpec.

(** ** The recursive crawler *)

Module ServiceSpec.
Import Web Service.

Lemma _crawl_recursive_step (e : Env) (cfg : Settings) (fuel : nat)
    (url : string) (depth : Z) (st : State) :
  _crawl_recursive e cfg (S fuel) url depth st =
  if max_depth cfg <? depth then Some st
  else if max_pages cfg <=? Z.of_nat (length (pages_data st)) then Some st
  else if bool_decide (canonical e cfg url ∈ visited_urls st) then Some st
  else match _crawl_page e url with
       | None => Some (marked e cfg url st)
       | Some data =>
           let st2 := appended data depth (marked e cfg url st) in
           if (depth <? max_depth cfg)
              && (Z.of_nat (length (pages_data st2)) <? max_pages cfg)
           then crawl_links cfg
                  (fun link s => _crawl_recursive e cfg fuel link (depth + 1) s)
                  (List.filter (_should_follow_url e cfg url) (_extract_links e url))
                  st2
           else Some st2
       end.
Proof. reflexivity. Qed.

(** *** Invariants of the recursion *)

Lemma crawl_links_invariant (cfg : Settings) (P : State -> Prop)
    (Q : string -> Prop) (visit : string -> State -> option State) :
  (forall link st st', Q link -> P st -> visit link st = Some st' -> P st') ->
  forall links st st',
    Forall Q links -> P st -> crawl_links cfg visit links st = Some st' -> P st'.
Proof.
  intros Hvisit links. induction links as [|link links IH];
    intros st st' HQ HP Hrun; simpl in Hrun.
  - injection Hrun as <-. exact HP.
  - inversion HQ as [|? ? Hlink Hlinks]; subst.
    destruct (_ <? _); [|injection Hrun as <-; exact HP].
    destruct (visit link st) as [st1|] eqn:E; [|discriminate].
    eapply IH; [exact Hlinks| |exact Hrun]. eapply Hvisit; eauto.
Qed.

Lemma crawl_recursive_invariant (e : Env) (cfg : Settings)
    (Q : string -> Prop) (P : State -> Prop) :
  (forall url link,
     Q url -> _should_follow_url e cfg url link = true -> Q link) ->
  (forall url depth st,
     Q url -> P st ->
     depth <= max_depth cfg ->
     Z.of_nat (length (pages_data st)) < max_pages cfg ->
     canonical e cfg url ∉ visited_urls st ->
     P (marked e cfg url st)
     /\ forall data, _crawl_page e url = Some data ->
                     P (appended data depth (marked e cfg url st))) ->
  forall fuel url depth st st',
    Q url -> P st -> _crawl_recursive e cfg fuel url depth st = Some st' -> P st'.
Proof.
  intros HQ Hstep fuel. induction fuel as [|fuel IH];
    intros url depth st st' Hurl HP Hrun; [discriminate|].
  rewrite _crawl_recursive_step in Hrun.
  destruct (max_depth cfg <? depth) eqn:Hd; [injection Hrun as <-; exact HP|].
  destruct (max_pages cfg <=? _) eqn:Hn; [injection Hrun as <-; exact HP|].
  case_bool_decide as Hvis; [injection Hrun as <-; exact HP|].
  apply Z.ltb_ge in Hd. apply Z.leb_gt in Hn.
  destruct (Hstep url depth st Hurl HP Hd Hn Hvis) as [Hmark Happ].
  destruct (_crawl_page e url) as [data|];
    [|injection Hrun as <-; exact Hmark].
  specialize (Happ data eq_refl). cbv zeta in Hrun.
  destruct (_ && _); [|injection Hrun as <-; exact Happ].
  eapply (crawl_links_invariant cfg P Q); [| |exact Happ|exact Hrun].
  - intros link s s' Hlink Hs Hvisit.
    exact (IH link (depth + 1) s s' Hlink Hs Hvisit).
  - apply List.Forall_forall. intros link Hin. apply filter_In in Hin.
    eapply HQ; [exact Hurl|tauto].
Qed.

(** *** Termination *)

Lemma crawl_links_total (cfg : Settings) (visit : string -> State -> option State) :
  (forall link st, exists st', visit link st = Some st') ->
  forall links st, exists st', crawl_links cfg visit links st = Some st'.
Proof.
  intros Hvisit links. induction links as [|link links IH]; intros st; simpl.
  - eauto.
  - destruct (_ <? _); [|eauto].
    destruct (Hvisit link st) as [st1 ->]. apply IH.
Qed.

Lemma crawl_recursive_total (e : Env) (cfg : Settings) (fuel : nat) :
  forall url depth st,
    (0 < fuel)%nat -> max_depth cfg - depth < Z.of_nat fuel ->
    exists st', _crawl_recursive e cfg fuel url depth st = Some st'.
Proof.
  induction fuel as [|fuel IH]; intros url depth st Hpos Hfuel; [lia|].
  rewrite _crawl_recursive_step.
  destruct (max_depth cfg <? depth); [eauto|].
  destruct (max_pages cfg <=? _); [eauto|].
  case_bool_decide; [eauto|].
  destruct (_crawl_page e url) as [data|]; [|eauto]. cbv zeta.
  destruct (depth <? max_depth cfg) eqn:Hd; simpl; [|eauto].
  destruct (_ <? max_pages cfg); [|eauto].
  apply Z.ltb_lt in Hd. apply crawl_links_total.
  intros link s. apply IH; lia.
Qed.

Lemma crawl_links_more_fuel (cfg : Settings)
    (visit visit' : string -> State -> option State) :
  (forall link st st', visit link st = Some st' -> visit' link st = Some st') ->
  forall links st st',
    crawl_links cfg visit links st = Some st' ->
    crawl_links cfg visit' links st = Some st'.
Proof.
  intros Hvisit links. induction links as [|link links IH];
    intros st st' Hrun; simpl in *; [exact Hrun|].
  destruct (_ <? _); [|exact Hrun].
  destruct (visit link st) as [st1|] eqn:E; [|discriminate].
  rewrite (Hvisit _ _ _ E). apply IH. exact Hrun.
Qed.

Lemma crawl_recursive_more_fuel (e : Env) (cfg : Settings) (fuel m : nat) :
  forall url depth st st',
    _crawl_recursive e cfg fuel url depth st = Some st' ->
    _crawl_recursive e cfg (fuel + m) url depth st = Some st'.
Proof.
  induction fuel as [|fuel IH]; intros url depth st st' Hrun; [discriminate|].
  change (S fuel + m)%nat with (S (fuel + m)).
  rewrite _crawl_recursive_step in *.
  destruct (max_depth cfg <? depth); [exact Hrun|].
  destruct (max_pages cfg <=? _); [exact Hrun|].
  case_bool_decide; [exact Hrun|].
  destruct (_crawl_page e url) as [data|]; [|exact Hrun]. cbv zeta in *.
  destruct (_ && _); [|exact Hrun].
  eapply crawl_links_more_fuel; [|exact Hrun].
  intros link s s'. apply IH.
Qed.

(** The crawl returns: with room for [max_depth] nested calls or more it
    ends, always in the same state. *)
Lemma recursive_crawl_terminates (e : Env) (cfg : Settings) (start_url : string) :
  exists res, forall m,
    crawl e cfg (S (Z.to_nat (max_depth cfg)) + m) start_url = Some res.
Proof.
  destruct (crawl_recursive_total e cfg (S (Z.to_nat (max_depth cfg)))
              start_url 1 initial_state) as [st' Hrun]; [lia|lia|].
  exists (pages_data st'). intros m. unfold crawl, crawl_state.
  rewrite (crawl_recursive_more_fuel e cfg _ m _ _ _ _ Hrun). reflexivity.
Qed.

(** *** The page cap *)

Lemma pages_data_bounded (e : Env) (cfg : Settings) (fuel : nat)
    (start_url : string) (res : list PageData) :
  0 <= max_pages cfg ->
  crawl e cfg fuel start_url = Some res ->
  Z.of_nat (length res) <= max_pages cfg.
Proof.
  intros Hcap. unfold crawl, crawl_state. intros Hrun.
  destruct (_crawl_recursive e cfg fuel start_url 1 initial_state)
    as [st'|] eqn:E; [|discriminate].
  injection Hrun as <-.
  refine (crawl_recursive_invariant e cfg (fun _ => True)
            (fun st => Z.of_nat (length (pages_data st)) <= max_pages cfg)
            _ _ fuel start_url 1 initial_state st' I Hcap E).
  - tauto.
  - intros url depth st _ Hle _ Hlt _. simpl. split; [exact Hle|].
    intros data _. rewrite length_app. simpl. lia.
Qed.

(** *** Canonical URLs *)

Lemma crawl_page_url (e : Env) (url : string) (data : PageData) :
  _crawl_page e url = Some data -> data_url data = url.
Proof.
  unfold _crawl_page. destruct (driver e url); [|discriminate].
  intros H. injection H as <-. reflexivity.
Qed.

Lemma canonical_once_step (e : Env) (cfg : Settings) (url : string) (depth : Z)
    (st : State) :
  canonical_once e cfg st ->
  canonical e cfg url ∉ visited_urls st ->
  canonical_once e cfg (marked e cfg url st)
  /\ forall data, _crawl_page e url = Some data ->
                  canonical_once e cfg (appended data depth (marked e cfg url st)).
Proof.
  intros (Hnd & Hvis & picked & Hsub & Hpages) Hfresh.
  assert (Hnd' : List.NoDup (List.map (canonical e cfg) (loads st ++ [url]))).
  { rewrite List.map_app. apply List.NoDup_app; [exact Hnd| |].
    - simpl. repeat constructor. simpl. tauto.
    - intros c Hc [<-|[]]. apply in_map_iff in Hc.
      destruct Hc as (u & Hu & Hin). apply Hfresh. rewrite <- Hu.
      apply Hvis, Hin. }
  assert (Hvis' : forall u, In u (loads st ++ [url]) ->
            canonical e cfg u ∈ {[ canonical e cfg url ]} ∪ visited_urls st).
  { intros u Hu. apply in_app_or in Hu. destruct Hu as [Hu|[<-|[]]].
    - apply elem_of_union_r, Hvis, Hu.
    - apply elem_of_union_l, elem_of_singleton. reflexivity. }
  split.
  - split; [exact Hnd'|]. split; [exact Hvis'|].
    exists picked. split; [|exact Hpages].
    simpl. apply sublist_inserts_r. exact Hsub.
  - intros data Hdata. split; [exact Hnd'|]. split; [exact Hvis'|].
    exists (picked ++ [url]). simpl. split.
    + apply sublist_app; [exact Hsub|reflexivity].
    + rewrite List.map_app, Hpages. simpl.
      rewrite (crawl_page_url e url data Hdata). reflexivity.
Qed.

Lemma sublist_map_NoDup (f : string -> string) (l1 l2 : list string) :
  sublist l1 l2 -> List.NoDup (List.map f l2) -> List.NoDup (List.map f l1).
Proof.
  induction 1 as [|x l1 l2 Hsub IH|x l1 l2 Hsub IH]; simpl; intros Hnd.
  - constructor.
  - inversion Hnd as [|? ? Hx Hnd']; subst. constructor; [|auto].
    intros Hin. apply Hx. apply in_map_iff in Hin.
    destruct Hin as (y & Hy & Hin). apply in_map_iff. exists y.
    split; [exact Hy|]. apply list_elem_of_In.
    eapply elem_of_sublist; [|exact Hsub]. apply list_elem_of_In. exact Hin.
  - inversion Hnd; subst. auto.
Qed.

(** In the recursive crawler no canonical URL is loaded twice and no two
    pages of the result share a canonical URL. *)
Lemma pages_data_canonical_once (e : Env) (cfg : Settings) (fuel : nat)
    (start_url : string) (st' : State) :
  crawl_state e cfg fuel start_url = Some st' ->
  List.NoDup (List.map (canonical e cfg) (loads st'))
  /\ List.NoDup (List.map (canonical e cfg) (List.map data_url (pages_data st'))).
Proof.
  unfold crawl_state. intros Hrun.
  assert (Hinv : canonical_once e cfg st').
  { refine (crawl_recursive_invariant e cfg (fun _ => True) (canonical_once e cfg)
              _ _ fuel start_url 1 initial_state st' I _ Hrun).
    - tauto.
    - intros url depth st _ Hst _ _ Hfresh.
      apply canonical_once_step; assumption.
    - split; [constructor|]. split; [simpl; tauto|].
      exists []. split; [constructor|reflexivity]. }
  destruct Hinv as (Hnd & _ & picked & Hsub & Hpages).
  split; [exact Hnd|]. rewrite Hpages.
  eapply sublist_map_NoDup; eauto.
Qed.

(** *** The link filter *)

Lemma should_follow_excluded (e : Env) (cfg : Settings) (base_url url : string) :
  (exists pattern,
     In pattern (exclude_url_patterns cfg) /\ Url.str_in pattern url = true) ->
  _should_follow_url e cfg base_url url = false.
Proof.
  intros Hex. unfold _should_follow_url.
  destruct (existsb _ _) eqn:E; [reflexivity|].
  apply existsb_exists in Hex. congruence.
Qed.

Lemma should_follow_in_list (e : Env) (cfg : Settings) (base_url url : string) :
  restrict_to_domains cfg <> [] ->
  _should_follow_url e cfg base_url url = true ->
  In (get_domain e url) (restrict_to_domains cfg).
Proof.
  intros Hne. unfold _should_follow_url.
  destruct (existsb _ _); [discriminate|].
  destruct (restrict_to_domains cfg) as [|d ds] eqn:E; [contradiction|].
  destruct (_ && _); [discriminate|].
  intros H. apply CrawlerSpec.in_list_In in H. exact H.
Qed.

(** *** Domains *)

Lemma crawl_on_start_domain (e : Env) (cfg : Settings) (fuel : nat)
    (start_url : string) (res : list PageData) :
  restrict_to_domains cfg = [get_domain e start_url] ->
  crawl e cfg fuel start_url = Some res ->
  forall data, In data res ->
    get_domain e (data_url data) = get_domain e start_url.
Proof.
  intros Hrestrict. unfold crawl, crawl_state. intros Hrun.
  destruct (_crawl_recursive e cfg fuel start_url 1 initial_state)
    as [st'|] eqn:E; [|discriminate].
  injection Hrun as <-.
  refine (crawl_recursive_invariant e cfg
            (fun url => get_domain e url = get_domain e start_url)
            (fun st => forall data, In data (pages_data st) ->
                         get_domain e (data_url data) = get_domain e start_url)
            _ _ fuel start_url 1 initial_state st' _ _ E).
  - intros url link _ Hfollow.
    apply should_follow_in_list in Hfollow; [|rewrite Hrestrict; discriminate].
    rewrite Hrestrict in Hfollow. simpl in Hfollow.
    destruct Hfollow as [<-|[]]. reflexivity.
  - intros url depth st Hurl Hst _ _ _. simpl. split; [exact Hst|].
    intros data Hdata d Hin. apply in_app_or in Hin.
    destruct Hin as [Hin|[<-|[]]]; [apply Hst, Hin|].
    rewrite (crawl_page_url e url data Hdata). exact Hurl.
  - reflexivity.
  - simpl. tauto.
Qed.

End ServiceSpec.

(** ** The two crawlers against the crawl policy *)

Module CrawlSpec.
Import Web.

(** *** The domain list *)

Lemma suffix_endswith (pre p : string) : Url.endswith (pre +:+ p) p = true.
Proof.
  induction pre as [|c pre IH].
  - change ("" +:+ p) with p. destruct p; simpl; [reflexivity|].
    rewrite Ascii.eqb_refl, String.eqb_refl. reflexivity.
  - change (String c pre +:+ p) with (String c (pre +:+ p)).
    cbn [Url.endswith]. rewrite IH. destruct (String.eqb _ p); reflexivity.
Qed.

(** [is_allowed_domain] decides [listed]. *)
Lemma is_allowed_domain_listed (domain : string) (restrict : list string) :
  Crawler.is_allowed_domain domain restrict = true
  <-> Crawler.listed domain restrict.
Proof.
  split; [apply CrawlerSpec.is_allowed_listed|].
  intros (allowed & Hin & H). unfold Crawler.is_allowed_domain.
  destruct (Url.in_list domain restrict); [reflexivity|].
  apply existsb_exists. exists allowed. split; [exact Hin|].
  apply orb_true_iff. destruct H as [->|[sub ->]].
  - right. apply String.eqb_refl.
  - left. apply suffix_endswith.
Qed.

(** C4 as stated fails: with [follow_external_links] set, the
    queue-driven crawler follows a link to [b.com] from [a.com] although
    the list only has [a.com]. *)
Lemma unlisted_domain_followed :
  let e := Sites.two_domains in
  let cfg := Crawler.mkSettings 1 10 true ["a.com"] true [] in
  Crawler.restrict_to_domains cfg <> []
  /\ Url.netloc (urlparse e "https://b.com/") = "b.com"
  /\ ~ Crawler.listed "b.com" (Crawler.restrict_to_domains cfg)
  /\ Crawler.should_follow_url e cfg (Crawler.initial_state "https://a.com/")
       "https://a.com/" "https://b.com/" = true.
Proof.
  split; [discriminate|]. split; [reflexivity|]. split; [|reflexivity].
  intros H. apply is_allowed_domain_listed in H. discriminate H.
Qed.

(** C4, amended. For a non-empty [restrict_to_domains] and a candidate
    whose domain is neither an entry of the list nor ends with a dot
    followed by an entry: [should_follow_url] of the queue-driven crawler
    returns false when [follow_external_links] is false and the candidate
    has a network location; [_should_follow_url] of the recursive crawler
    returns false whatever the other settings are. *)
Theorem unlisted_domain_rejected (e : Env) (base_url url : string) :
  (forall cfg st,
     Crawler.restrict_to_domains cfg <> [] ->
     Crawler.follow_external_links cfg = false ->
     Url.netloc (urlparse e url) <> "" ->
     ~ Crawler.listed (Url.netloc (urlparse e url))
         (Crawler.restrict_to_domains cfg) ->
     Crawler.should_follow_url e cfg st base_url url = false)
  /\ (forall cfg,
        Service.restrict_to_domains cfg <> [] ->
        ~ Crawler.listed (get_domain e url) (Service.restrict_to_domains cfg) ->
        Service._should_follow_url e cfg base_url url = false).
Proof.
  split.
  - intros cfg st. apply CrawlerSpec.should_follow_unlisted.
  - intros cfg Hne Hun.
    destruct (Service._should_follow_url e cfg base_url url) eqn:E; [|reflexivity].
    exfalso. apply Hun.
    exists (get_domain e url). split; [|tauto].
    eapply ServiceSpec.should_follow_in_list; eauto.
Qed.

Lemma unlisted_domain_rejected_witness :
  let e := Sites.two_domains in
  Crawler.should_follow_url e (Crawler.mkSettings 1 10 false ["a.com"] true [])
    (Crawler.initial_state "https://a.com/") "https://a.com/" "https://b.com/"
  = false
  /\ Service._should_follow_url e (Service.mkSettings 2 10 true ["a.com"] true [])
       "https://a.com/" "https://b.com/" = false.
Proof.
  intros e.
  assert (Hun : ~ Crawler.listed "b.com" ["a.com"]).
  { intros H. apply is_allowed_domain_listed in H. discriminate H. }
  destruct (unlisted_domain_rejected e "https://a.com/" "https://b.com/")
    as [Hqueue Hrec].
  split.
  - apply Hqueue; [discriminate|reflexivity|discriminate|exact Hun].
  - apply Hrec; [discriminate|exact Hun].
Defined.

(** *** Domain of the records *)

(** With [restrict_to_domain] set, the recursive crawler called by
    [scrape_with_selenium] returns, and every page it returns has the
    start URL's domain. *)
Lemma recursive_restricted_crawl_on_domain (e : Env) (url : string)
    (exclude : list string) (a : Service.CrawlArgs) :
  Service.arg_restrict_to_domain a = true ->
  (exists res, forall m,
     Service.crawled_pages_data e exclude
       (S (Z.to_nat (Service.arg_max_depth a)) + m) url a = Some res)
  /\ forall fuel res data,
       Service.crawled_pages_data e exclude fuel url a = Some res ->
       In data res ->
       get_domain e (Service.data_url data) = get_domain e url.
Proof.
  intros Hrestrict. unfold Service.crawled_pages_data. split.
  - destruct (_ && _); [|exists []; reflexivity].
    apply (ServiceSpec.recursive_crawl_terminates e
             (Service.crawler_settings e exclude url a) url).
  - intros fuel res data. destruct (_ && _).
    + intros Hrun Hin.
      eapply ServiceSpec.crawl_on_start_domain; [|exact Hrun|exact Hin].
      simpl. rewrite Hrestrict. reflexivity.
    + intros H. injection H as <-. contradiction.
Qed.

(** Two settings with the same depth and page caps whose link filters
    agree on every page the loop reaches drive the loop alike. *)
Lemma load_page_agree (e : Env) (cfg1 cfg0 : Crawler.Settings) (url : string)
    (depth : Z) (st : Crawler.State) :
  Crawler.max_depth cfg1 = Crawler.max_depth cfg0 ->
  (forall st' link,
     Crawler.should_follow_url e cfg1 st' url link
     = Crawler.should_follow_url e cfg0 st' url link) ->
  Crawler.load_page e cfg1 url depth st = Crawler.load_page e cfg0 url depth st.
Proof.
  intros Hd Hfollow.
  assert (Hlinks : forall st' pg,
            Crawler.extract_links e cfg1 st' url pg
            = Crawler.extract_links e cfg0 st' url pg).
  { intros st' pg. unfold Crawler.extract_links.
    apply List.filter_ext. intros link. apply Hfollow. }
  unfold Crawler.load_page.
  rewrite Hd. destruct (driver e url) as [pg|]; [|reflexivity].
  destruct (depth <? Crawler.max_depth cfg0); [|reflexivity].
  cbv zeta. rewrite Hlinks. reflexivity.
Qed.

Lemma crawl_item_agree (e : Env) (cfg1 cfg0 : Crawler.Settings) (url : string)
    (depth : Z) (st : Crawler.State) :
  Crawler.max_depth cfg1 = Crawler.max_depth cfg0 ->
  Crawler.max_pages_per_domain cfg1 = Crawler.max_pages_per_domain cfg0 ->
  (forall st' link,
     Crawler.should_follow_url e cfg1 st' url link
     = Crawler.should_follow_url e cfg0 st' url link) ->
  Crawler.crawl_item e cfg1 url depth st = Crawler.crawl_item e cfg0 url depth st.
Proof.
  intros Hd Hp Hfollow. unfold Crawler.crawl_item, Crawler.crawl_page.
  rewrite Hd, Hp.
  rewrite !(load_page_agree e cfg1 cfg0 url depth _ Hd Hfollow). reflexivity.
Qed.

Lemma crawl_loop_agree (e : Env) (cfg1 cfg0 : Crawler.Settings)
    (P : Crawler.State -> Prop) :
  Crawler.max_depth cfg1 = Crawler.max_depth cfg0 ->
  Crawler.max_pages_per_domain cfg1 = Crawler.max_pages_per_domain cfg0 ->
  (forall st url depth rest,
     Crawler.url_queue st = (url, depth) :: rest ->
     P st ->
     (forall st' link,
        Crawler.should_follow_url e cfg1 st' url link
        = Crawler.should_follow_url e cfg0 st' url link)
     /\ P (Crawler.crawl_item e cfg0 url depth (Crawler.pop st rest))) ->
  forall fuel st,
    P st -> Crawler.crawl_loop e cfg1 fuel st = Crawler.crawl_loop e cfg0 fuel st.
Proof.
  intros Hd Hp Hstep fuel.
  induction fuel as [|fuel IH]; intros st HP; simpl.
  - reflexivity.
  - destruct (Crawler.url_queue st) as [|[url depth] rest] eqn:Hq; [reflexivity|].
    destruct (Hstep st url depth rest Hq HP) as [Hfollow HP'].
    rewrite (crawl_item_agree e cfg1 cfg0 url depth _ Hd Hp Hfollow).
    apply IH. exact HP'.
Qed.

(** When external links are followed, the domain list plays no part in
    [should_follow_url]. *)
Lemma should_follow_list_unused (e : Env) (d p : Z) (restrict : list string)
    (iq : bool) (ex : list string) (st : Crawler.State) (base_url url : string) :
  Crawler.should_follow_url e (Crawler.mkSettings d p true restrict iq ex)
    st base_url url
  = Crawler.should_follow_url e (Crawler.mkSettings d p true [] iq ex)
      st base_url url.
Proof.
  unfold Crawler.should_follow_url. simpl.
  destruct (_ || _ || _); [reflexivity|].
  destruct (String.eqb _ ""); [reflexivity|].
  rewrite !andb_false_r. reflexivity.
Qed.

(** When they are not, a list holding the domain of the start URL
    rejects nothing that the test against the domain of the current page
    would accept, as long as the current page is on that domain or has
    no network location. *)
Lemma should_follow_list_redundant (e : Env) (d p : Z) (s : string)
    (iq : bool) (ex : list string) (st : Crawler.State) (base_url url : string) :
  get_domain e base_url = s \/ get_domain e base_url = "" ->
  Crawler.should_follow_url e (Crawler.mkSettings d p false [s] iq ex)
    st base_url url
  = Crawler.should_follow_url e (Crawler.mkSettings d p false [] iq ex)
      st base_url url.
Proof.
  intros Hbase. unfold Crawler.should_follow_url. simpl.
  destruct (_ || _ || _); [reflexivity|].
  destruct (String.eqb (Url.netloc (urlparse e url)) "") eqn:E; [reflexivity|].
  destruct (String.eqb (Url.netloc (urlparse e url)) (get_domain e base_url))
    eqn:E'; simpl.
  - apply String.eqb_eq in E'.
    destruct Hbase as [Hs|Hempty].
    + rewrite E', Hs. unfold Crawler.is_allowed_domain, Url.in_list. simpl.
      rewrite String.eqb_refl. reflexivity.
    + rewrite E', Hempty in E. discriminate E.
  - destruct (negb (Crawler.is_allowed_domain _ _)); reflexivity.
Qed.

(** C3. The queue-driven crawler, as [app_simple.py] calls it, takes no
    notice of [restrict_to_domain]: for every site, start URL and
    setting of the other options, the scrape gets the same list of
    records with the option set as with the option cleared.  So with the
    option set and [follow_external_links] set, the crawl started on
    [a.com] returns a record of a page of [b.com]. *)
Theorem queue_crawl_ignores_restrict_to_domain :
  (forall (e : Env) (fuel : nat) (url : string) (on : bool) (d p : Z)
          (follow ignore : bool),
     Crawler.crawled_pages_data e fuel url
       (Crawler.mkOptions on d p follow true ignore)
     = Crawler.crawled_pages_data e fuel url
         (Crawler.mkOptions on d p follow false ignore))
  /\ (let e := Sites.two_domains in
      let o := Crawler.mkOptions true 1 10 true true true in
      Crawler.opt_restrict_to_domain o = true
      /\ get_domain e "https://a.com/" = "a.com"
      /\ exists res r,
           Crawler.crawled_pages_data e 2 "https://a.com/" o = Some res
           /\ In r res
           /\ Crawler.rec_domain r = "b.com").
Proof.
  split.
  - intros e fuel url on d p follow ignore.
    unfold Crawler.crawled_pages_data, Crawler.crawler_settings. simpl.
    destruct on; [|reflexivity].
    unfold Crawler.crawl. f_equal.
    destruct follow.
    + apply (crawl_loop_agree e _ _ (fun _ => True)); [reflexivity|reflexivity| |exact I].
      intros st item depth rest _ _. split; [|exact I].
      intros st' link. apply should_follow_list_unused.
    + apply (crawl_loop_agree e _ _
               (Crawler.on_domain e (Url.netloc (urlparse e url))));
        [reflexivity|reflexivity| |].
      * intros st item depth rest Hq Hon. split.
        -- intros st' link. apply should_follow_list_redundant.
           destruct Hon as [Hqueue _]. rewrite Hq in Hqueue.
           inversion Hqueue as [|? ? Hitem _]; subst. exact Hitem.
        -- apply CrawlerSpec.on_domain_item; [reflexivity|exact Hq|exact Hon].
      * split; simpl; repeat constructor.
  - split; [reflexivity|]. split; [reflexivity|].
    eexists _, _. split; [vm_compute; reflexivity|].
    split; [right; left; reflexivity|reflexivity].
Qed.

(** *** Order of the records *)

(** C5 as stated fails: the recursive crawler on a start page with two
    children, the first of which has a child, appends the grandchild,
    found at depth 3, before the second child, found at depth 2. *)
Lemma recursive_crawl_not_level_order :
  let e := Sites.small_tree in
  let cfg := Service.crawler_settings e [] "https://a.com/"
               (Service.mkArgs 3 10 false true true) in
  exists st',
    Service.crawl_state e cfg 4 "https://a.com/" = Some st'
    /\ List.map Service.data_url (Service.pages_data st')
       = ["https://a.com/"; "https://a.com/x"; "https://a.com/z"; "https://a.com/y"]
    /\ Service.page_depths st' = [1; 2; 3; 2]
    /\ ~ Crawler.level_order (Service.page_depths st').
Proof.
  eexists. split; [vm_compute; reflexivity|].
  split; [reflexivity|]. split; [reflexivity|].
  intros H. specialize (H 3%nat 2%nat 2 eq_refl eq_refl). lia.
Qed.

(** C5, amended. The queue-driven crawler returns, and in the list it
    returns the depths never decrease, so that every record of depth [d]
    comes before every record of depth [d + 1]. *)
Theorem queue_crawl_level_order (e : Env) (cfg : Crawler.Settings)
    (start_url : string) :
  (exists n res, forall m, Crawler.crawl e cfg (n + m) start_url = Some res)
  /\ forall fuel res,
       Crawler.crawl e cfg fuel start_url = Some res ->
       Crawler.ascending (Crawler.rec_depth <$> res)
       /\ Crawler.level_order (Crawler.rec_depth <$> res).
Proof.
  split; [apply CrawlerSpec.queue_crawl_terminates|].
  intros fuel res Hrun.
  pose proof (CrawlerSpec.crawl_by_levels e cfg fuel start_url res Hrun) as Hasc.
  split; [exact Hasc|]. apply CrawlerSpec.ascending_level_order. exact Hasc.
Qed.

Lemma queue_crawl_level_order_witness :
  let e := Sites.small_tree in
  let cfg := Crawler.mkSettings 2 10 false [] true [] in
  exists res,
    Crawler.crawl e cfg 4 "https://a.com/" = Some res
    /\ List.map Crawler.rec_url res
       = ["https://a.com/"; "https://a.com/x"; "https://a.com/y"; "https://a.com/z"]
    /\ Crawler.rec_depth <$> res = [0; 1; 1; 2]
    /\ Crawler.level_order (Crawler.rec_depth <$> res).
Proof.
  intros e cfg.
  destruct (queue_crawl_level_order e cfg "https://a.com/") as [_ Horder].
  eexists. split; [vm_compute; reflexivity|].
  split; [reflexivity|]. split; [reflexivity|].
  apply (Horder 4%nat). vm_compute. reflexivity.
Defined.

(** *** The page cap *)

(** C1. [app_simple.py] hands [max_pages] to the queue-driven crawler as
    [max_pages_per_domain], and the loop of [crawl] has no bound on the
    length of [results]: with [max_pages = 1], external links followed
    and no domain restriction, a page of [a.com] linking to [b.com]
    gives two records. *)
Theorem queue_crawl_exceeds_max_pages :
  let e := Sites.two_domains in
  let o := Crawler.mkOptions true 1 1 true false true in
  exists res,
    (forall m, Crawler.crawled_pages_data e (2 + m) "https://a.com/" o = Some res)
    /\ List.map Crawler.rec_url res = ["https://a.com/"; "https://b.com/"]
    /\ Crawler.opt_max_pages o < Z.of_nat (length res).
Proof.
  eexists. split; [|split].
  - intros m. unfold Crawler.crawled_pages_data.
    cbn [Crawler.enabled]. apply CrawlerSpec.crawl_more_fuel.
    vm_compute. reflexivity.
  - reflexivity.
  - vm_compute. reflexivity.
Qed.


(** *** Canonical URLs *)

(** C2. [crawl_page] of the queue-driven crawler adds the URL as it
    stands to [visited_urls], while [should_follow_url] looks up the URL
    stripped of its query: with [ignore_query_strings] set, two links to
    one path under different queries are both queued, both loaded and
    both recorded, so two records share a canonical URL. *)
Theorem queue_crawl_repeats_canonical_url :
  let e := Sites.two_queries in
  let o := Crawler.mkOptions true 1 10 false true true in
  Crawler.ignore_query_strings (Crawler.crawler_settings e "https://a.com/" o) = true
  /\ exists res,
       (forall m, Crawler.crawled_pages_data e (3 + m) "https://a.com/" o = Some res)
       /\ List.map Crawler.rec_url res
          = ["https://a.com/"; "https://a.com/p?x=1"; "https://a.com/p?x=2"]
       /\ List.map (fun r => normalize_url e (Crawler.rec_url r)) res
          = ["https://a.com/"; "https://a.com/p"; "https://a.com/p"]
       /\ ~ List.NoDup (List.map (fun r => normalize_url e (Crawler.rec_url r)) res)
       /\ exists st',
            Crawler.crawl_loop e (Crawler.crawler_settings e "https://a.com/" o) 3
              (Crawler.initial_state "https://a.com/") = Some st'
            /\ Crawler.results st' = res
            /\ Crawler.loads st'
               = ["https://a.com/"; "https://a.com/p?x=1"; "https://a.com/p?x=2"].
Proof.
  split; [reflexivity|]. eexists. split; [|split; [|split; [|split]]].
  - intros m. unfold Crawler.crawled_pages_data.
    cbn [Crawler.enabled]. apply CrawlerSpec.crawl_more_fuel.
    vm_compute. reflexivity.
  - reflexivity.
  - reflexivity.
  - intros H. vm_compute in H.
    inversion H as [|? ? _ H']. inversion H' as [|? ? Hin _].
    apply Hin. left. reflexivity.
  - eexists. split; [vm_compute; reflexivity|]. split; reflexivity.
Qed.

(** The recursive crawler keeps canonical URLs apart: it returns, no
    canonical URL is loaded twice and no two pages of the result share
    one. *)
Lemma recursive_crawl_canonical_once (e : Env) (cfg : Service.Settings)
    (start_url : string) :
  (exists res, forall m,
     Service.crawl e cfg (S (Z.to_nat (Service.max_depth cfg)) + m) start_url
     = Some res)
  /\ forall fuel st',
       Service.crawl_state e cfg fuel start_url = Some st' ->
       List.NoDup (List.map (Service.canonical e cfg) (Service.loads st'))
       /\ List.NoDup (List.map (Service.canonical e cfg)
                        (List.map Service.data_url (Service.pages_data st'))).
Proof.
  split; [apply ServiceSpec.recursive_crawl_terminates|].
  intros fuel st'. apply ServiceSpec.pages_data_canonical_once.
Qed.

(** *** Exclusion patterns *)

(** C8. [should_follow_url] of the queue-driven crawler returns true for
    a URL without network location before it looks at the exclusion
    patterns: with the pattern [mailto:], a mail link is accepted in
    every state and from every base URL, and the crawl records it. *)
Theorem excluded_url_without_netloc_followed :
  let e := Sites.mail_link in
  let cfg := Crawler.mkSettings 1 10 false [] true ["mailto:"] in
  re_search e "mailto:" "mailto:admin@a.com" = true
  /\ (forall st base_url,
        Crawler.should_follow_url e cfg st base_url "mailto:admin@a.com" = true)
  /\ exists res,
       (forall m, Crawler.crawl e cfg (2 + m) "https://a.com/" = Some res)
       /\ List.map Crawler.rec_url res = ["https://a.com/"; "mailto:admin@a.com"].
Proof.
  split; [reflexivity|]. split; [intros st base_url; reflexivity|].
  eexists. split.
  - intros m. apply CrawlerSpec.crawl_more_fuel. vm_compute. reflexivity.
  - reflexivity.
Qed.

(** [_should_follow_url] of the recursive crawler looks at the patterns
    first: a URL containing one of them is never followed. *)
Lemma recursive_crawl_excludes (e : Env) (cfg : Service.Settings)
    (base_url url pattern : string) :
  In pattern (Service.exclude_url_patterns cfg) ->
  Url.str_in pattern url = true ->
  Service._should_follow_url e cfg base_url url = false.
Proof.
  intros Hin Hmatch. apply ServiceSpec.should_follow_excluded. eauto.
Qed.

End CrawlSpec.

(** ** Further properties of the queue-driven crawler *)

Module CrawlerMore.
Import Web Crawler.

(** *** A turn of the loop, exactly *)

Lemma load_page_exact (e : Env) (cfg : Settings) (url : string) (depth : Z)
    (st st0 : State) :
  visited_urls st = visited_urls st0 ->
  url_queue st = url_queue st0 ->
  results st = results st0 ->
  loads st = loads st0 ->
  counted (get_domain e url) (pages_crawled_per_domain st)
  = counted (get_domain e url) (pages_crawled_per_domain st0) ->
  match load_page e cfg url depth st with
  | (st', Some data) =>
      mkState (visited_urls st') (url_queue st') (results st' ++ [data])
        (pages_crawled_per_domain st') (loads st')
  | (st', None) => st'
  end
  = match driver e url with
    | None =>
        mkState ({[ url ]} ∪ visited_urls st0) (url_queue st0) (results st0)
          (pages_crawled_per_domain st) (loads st0 ++ [url])
    | Some pg =>
        mkState ({[ url ]} ∪ visited_urls st0)
          (url_queue st0
           ++ List.map (fun link => (link, depth + 1))
                (queued_links e cfg url depth st0 pg))
          (results st0 ++ [page_data e url depth pg])
          (counted (get_domain e url) (pages_crawled_per_domain st0))
          (loads st0 ++ [url])
    end.
Proof.
  intros Hv Hq Hr Hl Hc. unfold load_page, queued_links.
  destruct (driver e url) as [pg|];
    cbn [visited_urls url_queue results pages_crawled_per_domain loads];
    [|rewrite Hv, Hq, Hr, Hl; reflexivity].
  fold (counted (get_domain e url) (pages_crawled_per_domain st)).
  rewrite Hc, Hv, Hq, Hr, Hl.
  destruct (depth <? max_depth cfg);
    cbn [visited_urls url_queue results pages_crawled_per_domain loads].
  - reflexivity.
  - rewrite app_nil_r. reflexivity.
Qed.

Lemma counted_opened (domain : string) (counters : gmap string Z) :
  counters !! domain = None ->
  counted domain (<[ domain := 0 ]> counters) = counted domain counters.
Proof.
  intros Hnone. unfold counted.
  rewrite lookup_insert_eq, Hnone, insert_insert_eq. reflexivity.
Qed.

(** One turn on the item [(url, depth)]: nothing happens when the URL
    is visited, too deep or on a domain that has reached its cap;
    otherwise the URL is marked visited and loaded, and when the load
    succeeds the page is counted and recorded and its links are queued. *)
Lemma crawl_item_exact (e : Env) (cfg : Settings) (url : string) (depth : Z)
    (st : State) :
  crawl_item e cfg url depth st
  = if bool_decide (url ∈ visited_urls st)
       || (max_depth cfg <? depth)
       || domain_exhausted cfg st (get_domain e url)
    then st
    else match driver e url with
         | None =>
             mkState ({[ url ]} ∪ visited_urls st) (url_queue st) (results st)
               (opened (get_domain e url) (pages_crawled_per_domain st))
               (loads st ++ [url])
         | Some pg =>
             mkState ({[ url ]} ∪ visited_urls st)
               (url_queue st
                ++ List.map (fun link => (link, depth + 1))
                     (queued_links e cfg url depth st pg))
               (results st ++ [page_data e url depth pg])
               (counted (get_domain e url) (pages_crawled_per_domain st))
               (loads st ++ [url])
         end.
Proof.
  unfold crawl_item, crawl_page, domain_exhausted, opened.
  destruct (bool_decide (url ∈ visited_urls st)); [reflexivity|].
  destruct (max_depth cfg <? depth); [reflexivity|]. cbn [orb].
  destruct (pages_crawled_per_domain st !! get_domain e url) as [n|] eqn:Hc.
  - destruct (max_pages_per_domain cfg <=? n); [reflexivity|].
    rewrite (load_page_exact e cfg url depth st st) by reflexivity.
    reflexivity.
  - rewrite (load_page_exact e cfg url depth _ st);
      [|reflexivity|reflexivity|reflexivity|reflexivity
       |apply counted_opened; exact Hc].
    reflexivity.
Qed.

Lemma crawl_item_cases (e : Env) (cfg : Settings) (url : string) (depth : Z)
    (st : State) :
  crawl_item e cfg url depth st = st
  \/ ((url ∉ visited_urls st)
      /\ depth <= max_depth cfg
      /\ domain_exhausted cfg st (get_domain e url) = false
      /\ ((driver e url = None
           /\ crawl_item e cfg url depth st
              = mkState ({[ url ]} ∪ visited_urls st) (url_queue st) (results st)
                  (opened (get_domain e url) (pages_crawled_per_domain st))
                  (loads st ++ [url]))
          \/ exists pg,
               driver e url = Some pg
               /\ crawl_item e cfg url depth st
                  = mkState ({[ url ]} ∪ visited_urls st)
                      (url_queue st
                       ++ List.map (fun link => (link, depth + 1))
                            (queued_links e cfg url depth st pg))
                      (results st ++ [page_data e url depth pg])
                      (counted (get_domain e url) (pages_crawled_per_domain st))
                      (loads st ++ [url]))).
Proof.
  rewrite crawl_item_exact.
  case_bool_decide as Hvis; [left; reflexivity|].
  destruct (max_depth cfg <? depth) eqn:Hd; [left; reflexivity|].
  destruct (domain_exhausted cfg st (get_domain e url)) eqn:Hx;
    [left; reflexivity|].
  apply Z.ltb_ge in Hd. right. cbn [orb].
  split; [exact Hvis|]. split; [exact Hd|]. split; [reflexivity|].
  destruct (driver e url) as [pg|]; [right; exists pg|left]; tauto.
Qed.

Lemma queued_links_anchors (e : Env) (cfg : Settings) (url : string) (depth : Z)
    (st : State) (pg : Page) (link : string) :
  In link (queued_links e cfg url depth st pg) ->
  depth < max_depth cfg
  /\ exists href, In href (anchors pg) /\ href <> "" /\ link = urljoin e url href.
Proof.
  unfold queued_links. destruct (depth <? max_depth cfg) eqn:Hd; [|contradiction].
  apply Z.ltb_lt in Hd. intros Hin. split; [exact Hd|].
  apply filter_In in Hin. destruct Hin as [Hin _].
  unfold extract_links in Hin. apply filter_In in Hin. destruct Hin as [Hin _].
  apply in_map_iff in Hin. destruct Hin as (href & <- & Hin).
  apply filter_In in Hin. destruct Hin as [Hin Hne].
  exists href. split; [exact Hin|]. split; [|reflexivity].
  intros ->. discriminate Hne.
Qed.

(** *** Depth of the records *)

Lemma depths_item (e : Env) (cfg : Settings) (st : State) (url : string)
    (depth : Z) (rest : list (string * Z)) :
  url_queue st = (url, depth) :: rest ->
  Forall (fun item => 0 <= snd item) (url_queue st)
  /\ Forall (fun r => 0 <= rec_depth r <= max_depth cfg) (results st) ->
  let st' := crawl_item e cfg url depth (pop st rest) in
  Forall (fun item => 0 <= snd item) (url_queue st')
  /\ Forall (fun r => 0 <= rec_depth r <= max_depth cfg) (results st').
Proof.
  intros Hq [Hqueue Hres] st'. rewrite Hq in Hqueue.
  inversion Hqueue as [|? ? Hd Hrest]; subst. simpl in Hd.
  destruct (crawl_item_cases e cfg url depth (pop st rest))
    as [Heq|(_ & Hmax & _ & [[_ Heq]|(pg & _ & Heq)])];
    subst st'; rewrite Heq; simpl; try tauto.
  split.
  - apply List.Forall_app. split; [exact Hrest|].
    apply List.Forall_forall. intros item Hin. apply in_map_iff in Hin.
    destruct Hin as (link & <- & _). simpl. lia.
  - apply List.Forall_app. split; [exact Hres|].
    constructor; [simpl; lia|constructor].
Qed.

(** The crawl returns, and every record it returns was found at a depth
    between 0 and [max_depth]. *)
Theorem queue_crawl_depth_bound (e : Env) (cfg : Settings) (start_url : string) :
  (exists n res, forall m, crawl e cfg (n + m) start_url = Some res)
  /\ forall fuel res r,
       crawl e cfg fuel start_url = Some res ->
       In r res ->
       0 <= rec_depth r <= max_depth cfg.
Proof.
  split; [apply CrawlerSpec.queue_crawl_terminates|].
  unfold crawl. intros fuel res r Hrun.
  destruct (crawl_loop e cfg fuel (initial_state start_url)) as [st'|] eqn:E;
    [|discriminate].
  injection Hrun as <-.
  assert (Hinv : Forall (fun item => 0 <= snd item) (url_queue st')
                 /\ Forall (fun r => 0 <= rec_depth r <= max_depth cfg) (results st')).
  { refine (CrawlerSpec.crawl_loop_invariant e cfg
              (fun s => Forall (fun item => 0 <= snd item) (url_queue s)
                        /\ Forall (fun r => 0 <= rec_depth r <= max_depth cfg)
                             (results s))
              _ fuel _ st' _ E).
    - intros st url depth rest. apply depths_item.
    - split; simpl; [|constructor]. constructor; [simpl; lia|constructor]. }
  destruct Hinv as [_ Hres]. rewrite List.Forall_forall in Hres. apply Hres.
Qed.

Lemma queue_crawl_depth_bound_witness :
  let e := Sites.small_tree in
  let cfg := mkSettings 1 10 false [] true [] in
  exists res,
    crawl e cfg 3 "https://a.com/" = Some res
    /\ List.map rec_url res = ["https://a.com/"; "https://a.com/x"; "https://a.com/y"]
    /\ forall r, In r res -> 0 <= rec_depth r <= 1.
Proof.
  intros e cfg.
  destruct (queue_crawl_depth_bound e cfg "https://a.com/") as [_ Hdepth].
  eexists. split; [vm_compute; reflexivity|]. split; [reflexivity|].
  intros r. apply (Hdepth 3%nat). vm_compute. reflexivity.
Defined.

(** *** Pages per domain *)

Lemma records_of_snoc (domain : string) (rs : list PageRecord) (r : PageRecord) :
  records_of domain (rs ++ [r])
  = records_of domain rs + (if String.eqb (rec_domain r) domain then 1 else 0).
Proof.
  unfold records_of. rewrite List.filter_app, length_app. simpl.
  destruct (String.eqb (rec_domain r) domain); simpl; lia.
Qed.

Lemma domains_counted_item (e : Env) (cfg : Settings) (st : State) (url : string)
    (depth : Z) (rest : list (string * Z)) :
  domains_counted cfg st ->
  domains_counted cfg (crawl_item e cfg url depth (pop st rest)).
Proof.
  intros Hinv.
  destruct (crawl_item_cases e cfg url depth (pop st rest))
    as [Heq|(_ & _ & Hx & [[_ Heq]|(pg & _ & Heq)])]; rewrite Heq; clear Heq.
  - exact Hinv.
  - intros domain. specialize (Hinv domain). simpl. unfold opened.
    destruct (pages_crawled_per_domain st !! get_domain e url) eqn:Hc;
      [exact Hinv|].
    destruct (decide (get_domain e url = domain)) as [<-|Hne].
    + rewrite lookup_insert_eq. rewrite Hc in Hinv. lia.
    + rewrite lookup_insert_ne by exact Hne. exact Hinv.
  - intros domain. pose proof (Hinv domain) as Hd. simpl. unfold counted.
    rewrite records_of_snoc. simpl.
    destruct (decide (get_domain e url = domain)) as [<-|Hne].
    + rewrite lookup_insert_eq, String.eqb_refl.
      unfold domain_exhausted in Hx. simpl in Hx.
      destruct (pages_crawled_per_domain st !! get_domain e url) as [n|];
        simpl; [|lia].
      apply Z.leb_gt in Hx. lia.
    + rewrite lookup_insert_ne by exact Hne.
      destruct (String.eqb (get_domain e url) domain) eqn:E;
        [apply String.eqb_eq in E; contradiction|].
      rewrite Z.add_0_r. exact Hd.
Qed.

(** The crawl returns, and for every domain the list it returns holds at
    most [max_pages_per_domain] records of that domain, or one when the
    cap is below 1: the first page of a domain is loaded before the
    counter is compared with the cap. *)
Theorem queue_crawl_domain_cap (e : Env) (cfg : Settings) (start_url : string) :
  (exists n res, forall m, crawl e cfg (n + m) start_url = Some res)
  /\ forall fuel res domain,
       crawl e cfg fuel start_url = Some res ->
       records_of domain res <= Z.max 1 (max_pages_per_domain cfg).
Proof.
  split; [apply CrawlerSpec.queue_crawl_terminates|].
  unfold crawl. intros fuel res domain Hrun.
  destruct (crawl_loop e cfg fuel (initial_state start_url)) as [st'|] eqn:E;
    [|discriminate].
  injection Hrun as <-.
  assert (Hinv : domains_counted cfg st').
  { refine (CrawlerSpec.crawl_loop_invariant e cfg (domains_counted cfg)
              _ fuel _ st' _ E).
    - intros st url depth rest _. apply domains_counted_item.
    - intros d. simpl. rewrite lookup_empty. reflexivity. }
  specialize (Hinv domain).
  destruct (pages_crawled_per_domain st' !! domain); lia.
Qed.

Lemma queue_crawl_domain_cap_witness :
  let e := Sites.small_tree in
  exists res res0,
    crawl e (mkSettings 2 2 false [] true []) 4 "https://a.com/" = Some res
    /\ records_of "a.com" res = 2
    /\ crawl e (mkSettings 2 0 false [] true []) 4 "https://a.com/" = Some res0
    /\ records_of "a.com" res0 = 1
    /\ records_of "a.com" res <= Z.max 1 2.
Proof.
  intros e.
  destruct (queue_crawl_domain_cap e (mkSettings 2 2 false [] true [])
              "https://a.com/") as [_ Hcap].
  eexists _, _. split; [vm_compute; reflexivity|]. split; [reflexivity|].
  split; [vm_compute; reflexivity|]. split; [reflexivity|].
  apply (Hcap 4%nat). vm_compute. reflexivity.
Defined.

(** *** The records and the loads *)

Lemma loaded_item (e : Env) (cfg : Settings) (st : State) (url : string)
    (depth : Z) (rest : list (string * Z)) :
  List.map rec_url (results st) = List.filter (loads_well e) (loads st) ->
  let st' := crawl_item e cfg url depth (pop st rest) in
  List.map rec_url (results st') = List.filter (loads_well e) (loads st').
Proof.
  intros Hinv st'.
  destruct (crawl_item_cases e cfg url depth (pop st rest))
    as [Heq|(_ & _ & _ & [[Hload Heq]|(pg & Hload & Heq)])];
    subst st'; rewrite Heq; simpl; clear Heq.
  - exact Hinv.
  - rewrite List.filter_app. simpl. unfold loads_well at 2. rewrite Hload.
    rewrite app_nil_r. exact Hinv.
  - rewrite List.filter_app, List.map_app. simpl. unfold loads_well at 2.
    rewrite Hload, Hinv. reflexivity.
Qed.

(** The crawl returns; the URLs of its records are, in order, the URLs
    it loaded with success, and no URL is recorded twice. *)
Theorem queue_crawl_records_loaded_pages (e : Env) (cfg : Settings)
    (start_url : string) :
  (exists n st', forall m,
     crawl_loop e cfg (n + m) (initial_state start_url) = Some st')
  /\ forall fuel st',
       crawl_loop e cfg fuel (initial_state start_url) = Some st' ->
       List.map rec_url (results st') = List.filter (loads_well e) (loads st')
       /\ List.NoDup (List.map rec_url (results st')).
Proof.
  split.
  - destruct (CrawlerSpec.crawl_loop_terminates_below e cfg
                (levels_left cfg (start_url, 0)) (initial_state start_url))
      as (n & st' & Hrun); [repeat constructor|].
    exists n, st'. exact Hrun.
  - intros fuel st' Hrun.
    assert (Hinv : List.map rec_url (results st')
                   = List.filter (loads_well e) (loads st')).
    { refine (CrawlerSpec.crawl_loop_invariant e cfg
                (fun s => List.map rec_url (results s)
                          = List.filter (loads_well e) (loads s))
                _ fuel _ st' _ Hrun).
      - intros st url depth rest _. apply loaded_item.
      - reflexivity. }
    split; [exact Hinv|]. rewrite Hinv.
    assert (Hnd : loads_once e st').
    { refine (CrawlerSpec.crawl_loop_invariant e cfg (loads_once e)
                _ fuel _ st' _ Hrun).
      - intros st url depth rest _. apply CrawlerSpec.loads_once_item.
      - repeat split; simpl; [constructor|tauto|tauto]. }
    destruct Hnd as (Hnd & _).
    clear Hinv. induction Hnd as [|u l Hu Hl IH]; simpl; [constructor|].
    destruct (loads_well e u); [constructor|]; auto.
    intros Hin. apply filter_In in Hin. tauto.
Qed.

Lemma queue_crawl_records_loaded_pages_witness :
  let e := Sites.one_timeout in
  exists st',
    crawl_loop e default_settings 3 (initial_state "https://a.com/") = Some st'
    /\ loads st' = ["https://a.com/"; "https://a.com/slow"; "https://a.com/ok"]
    /\ List.map rec_url (results st') = ["https://a.com/"; "https://a.com/ok"]
    /\ List.NoDup (List.map rec_url (results st')).
Proof.
  intros e.
  destruct (queue_crawl_records_loaded_pages e default_settings "https://a.com/")
    as [_ Hloaded].
  destruct (crawl_loop e default_settings 3 (initial_state "https://a.com/"))
    as [st'|] eqn:Hrun; [|vm_compute in Hrun; discriminate].
  exists st'. split; [reflexivity|].
  assert (Hst : Some st' = Some st') by reflexivity.
  rewrite <- Hrun in Hst at 1. vm_compute in Hst. injection Hst as <-.
  split; [reflexivity|]. split; [reflexivity|].
  refine (proj2 (Hloaded 3%nat _ _)). vm_compute. reflexivity.
Defined.

(** *** The start page *)

Lemma results_grow_item (e : Env) (cfg : Settings) (url : string) (depth : Z)
    (st : State) :
  exists more, results (crawl_item e cfg url depth st) = results st ++ more.
Proof.
  destruct (crawl_item_cases e cfg url depth st)
    as [Heq|(_ & _ & _ & [[_ Heq]|(pg & _ & Heq)])]; rewrite Heq; simpl.
  - exists []. rewrite app_nil_r. reflexivity.
  - exists []. rewrite app_nil_r. reflexivity.
  - eexists. reflexivity.
Qed.

Lemma results_grow (e : Env) (cfg : Settings) (fuel : nat) (st st' : State) :
  crawl_loop e cfg fuel st = Some st' ->
  exists more, results st' = results st ++ more.
Proof.
  intros Hrun.
  refine (CrawlerSpec.crawl_loop_invariant e cfg
            (fun s => exists more, results s = results st ++ more)
            _ fuel st st' _ Hrun).
  - intros s url depth rest _ [more Hs].
    destruct (results_grow_item e cfg url depth (pop s rest)) as [more' Hs'].
    exists (more ++ more'). rewrite Hs'. simpl. rewrite Hs, app_assoc. reflexivity.
  - exists []. rewrite app_nil_r. reflexivity.
Qed.

Lemma first_turn (e : Env) (cfg : Settings) (start_url : string) :
  crawl_item e cfg start_url 0 (pop (initial_state start_url) [])
  = if max_depth cfg <? 0 then mkState ∅ [] [] ∅ []
    else match driver e start_url with
         | None =>
             mkState ({[ start_url ]} ∪ ∅) [] []
               (<[ get_domain e start_url := 0 ]> ∅) [start_url]
         | Some pg =>
             mkState ({[ start_url ]} ∪ ∅)
               (List.map (fun link => (link, 0 + 1))
                  (queued_links e cfg start_url 0
                     (pop (initial_state start_url) []) pg))
               [page_data e start_url 0 pg]
               (counted (get_domain e start_url) ∅) [start_url]
         end.
Proof.
  rewrite crawl_item_exact. unfold domain_exhausted, opened. simpl.
  rewrite lookup_empty.
  rewrite bool_decide_eq_false_2 by set_solver. simpl.
  destruct (max_depth cfg <? 0); reflexivity.
Qed.

(** The crawl returns.  The list is empty when [max_depth] is negative
    or the start page fails to load; otherwise its first record is the
    start page, at depth 0. *)
Theorem queue_crawl_starts_with_start_page (e : Env) (cfg : Settings)
    (start_url : string) :
  (exists n res, forall m, crawl e cfg (n + m) start_url = Some res)
  /\ forall fuel res,
       crawl e cfg fuel start_url = Some res ->
       (max_depth cfg < 0 \/ driver e start_url = None -> res = [])
       /\ forall pg,
            0 <= max_depth cfg ->
            driver e start_url = Some pg ->
            exists more, res = page_data e start_url 0 pg :: more.
Proof.
  split; [apply CrawlerSpec.queue_crawl_terminates|].
  unfold crawl. intros fuel res Hrun.
  destruct (crawl_loop e cfg fuel (initial_state start_url)) as [st'|] eqn:E;
    [|discriminate].
  injection Hrun as <-.
  destruct fuel as [|fuel]; [discriminate E|].
  simpl in E.
  change (mkState ∅ [] [] ∅ []) with (pop (initial_state start_url) []) in E.
  rewrite first_turn in E.
  destruct (max_depth cfg <? 0) eqn:Hd.
  - apply Z.ltb_lt in Hd.
    destruct fuel; simpl in E; injection E as <-.
    all: split; [reflexivity|intros pg Hge; lia].
  - apply Z.ltb_ge in Hd. destruct (driver e start_url) as [pg|].
    + apply results_grow in E. destruct E as [more Hmore]. simpl in Hmore.
      split; [intros [Hneg|Hnone]; [lia|discriminate]|].
      intros pg' _ Hpg. injection Hpg as <-. exists more. exact Hmore.
    + destruct fuel; simpl in E; injection E as <-.
      all: split; [reflexivity|intros pg _ Hpg; discriminate].
Qed.

Lemma queue_crawl_starts_with_start_page_witness :
  let e := Sites.small_tree in
  (exists more,
     crawl e default_settings 3 "https://a.com/"
     = Some (page_data e "https://a.com/" 0
               (Sites.linking ["https://a.com/x"; "https://a.com/y"]) :: more))
  /\ crawl e default_settings 1 "https://a.com/missing" = Some []
  /\ crawl e (mkSettings (-1) 10 false [] true []) 1 "https://a.com/" = Some [].
Proof.
  intros e.
  destruct (queue_crawl_starts_with_start_page e default_settings "https://a.com/")
    as [_ Hfirst].
  destruct (crawl e default_settings 3 "https://a.com/") as [res|] eqn:Hrun;
    [|vm_compute in Hrun; discriminate].
  destruct (Hfirst 3%nat res Hrun) as [_ Hhead].
  destruct (Hhead (Sites.linking ["https://a.com/x"; "https://a.com/y"]))
    as [more ->]; [simpl; lia|reflexivity|].
  split; [exists more; reflexivity|].
  split; vm_compute; reflexivity.
Defined.

(** *** Where the records come from *)

Lemma linked_from_more (e : Env) (start_url : string) (rs more : list PageRecord)
    (url : string) (depth : Z) :
  linked_from e start_url rs url depth ->
  linked_from e start_url (rs ++ more) url depth.
Proof.
  intros [H|(parent & pg & href & Hin & H)]; [left; exact H|].
  right. exists parent, pg, href. split; [|exact H].
  apply in_or_app. left. exact Hin.
Qed.

Lemma linked_item (e : Env) (cfg : Settings) (start_url : string) (st : State)
    (url : string) (depth : Z) (rest : list (string * Z)) :
  url_queue st = (url, depth) :: rest ->
  Forall (fun item => linked_from e start_url (results st) (fst item) (snd item))
    (url_queue st)
  /\ Forall (fun r => linked_from e start_url (results st) (rec_url r) (rec_depth r))
       (results st) ->
  let st' := crawl_item e cfg url depth (pop st rest) in
  Forall (fun item => linked_from e start_url (results st') (fst item) (snd item))
    (url_queue st')
  /\ Forall (fun r => linked_from e start_url (results st') (rec_url r) (rec_depth r))
       (results st').
Proof.
  intros Hq [Hqueue Hres] st'. rewrite Hq in Hqueue.
  inversion Hqueue as [|? ? Hhead Hrest]; subst. simpl in Hhead.
  destruct (crawl_item_cases e cfg url depth (pop st rest))
    as [Heq|(_ & _ & _ & [[_ Heq]|(pg & Hload & Heq)])];
    subst st'; rewrite Heq; simpl; clear Heq; try tauto.
  split.
  - apply List.Forall_app. split.
    + eapply List.Forall_impl; [|exact Hrest].
      intros item. apply linked_from_more.
    + apply List.Forall_forall. intros item Hin. apply in_map_iff in Hin.
      destruct Hin as (link & <- & Hin). simpl.
      apply queued_links_anchors in Hin.
      destruct Hin as (_ & href & Hhref & Hne & ->).
      right. exists (page_data e url depth pg), pg, href. simpl.
      split; [apply in_or_app; right; left; reflexivity|]. tauto.
  - apply List.Forall_app. split.
    + eapply List.Forall_impl; [|exact Hres].
      intros r. apply linked_from_more.
    + constructor; [|constructor]. simpl. apply linked_from_more. exact Hhead.
Qed.

(** The crawl returns, and every record it returns is the start page at
    depth 0 or a page linked from a page recorded one level up: its URL
    is an [href] of that page made absolute against that page's URL. *)
Theorem queue_crawl_records_are_linked (e : Env) (cfg : Settings)
    (start_url : string) :
  (exists n res, forall m, crawl e cfg (n + m) start_url = Some res)
  /\ forall fuel res r,
       crawl e cfg fuel start_url = Some res ->
       In r res ->
       linked_from e start_url res (rec_url r) (rec_depth r).
Proof.
  split; [apply CrawlerSpec.queue_crawl_terminates|].
  unfold crawl. intros fuel res r Hrun.
  destruct (crawl_loop e cfg fuel (initial_state start_url)) as [st'|] eqn:E;
    [|discriminate].
  injection Hrun as <-.
  assert (Hinv :
    Forall (fun item => linked_from e start_url (results st') (fst item) (snd item))
      (url_queue st')
    /\ Forall (fun r => linked_from e start_url (results st') (rec_url r) (rec_depth r))
         (results st')).
  { refine (CrawlerSpec.crawl_loop_invariant e cfg
              (fun s =>
                 Forall (fun item =>
                           linked_from e start_url (results s) (fst item) (snd item))
                   (url_queue s)
                 /\ Forall (fun r =>
                              linked_from e start_url (results s) (rec_url r)
                                (rec_depth r))
                      (results s))
              _ fuel _ st' _ E).
    - intros st url depth rest. apply linked_item.
    - split; simpl; [|constructor].
      constructor; [left; split; reflexivity|constructor]. }
  destruct Hinv as [_ Hres]. rewrite List.Forall_forall in Hres. apply Hres.
Qed.

Lemma queue_crawl_records_are_linked_witness :
  let e := Sites.small_tree in
  exists res,
    crawl e default_settings 3 "https://a.com/" = Some res
    /\ List.map rec_url res = ["https://a.com/"; "https://a.com/x"; "https://a.com/y"]
    /\ forall r, In r res ->
         linked_from e "https://a.com/" res (rec_url r) (rec_depth r).
Proof.
  intros e.
  destruct (queue_crawl_records_are_linked e default_settings "https://a.com/")
    as [_ Hlinked].
  eexists. split; [vm_compute; reflexivity|]. split; [reflexivity|].
  intros r. apply (Hlinked 3%nat). vm_compute. reflexivity.
Defined.

(** *** The domain list *)

(** [is_allowed_domain] holds exactly when the domain is an entry of the
    list or ends with a dot followed by an entry; the comparison is on
    the text of the network location, port included. *)
Theorem allowed_domain_iff_suffix (domain : string) (restrict : list string) :
  is_allowed_domain domain restrict = true
  <-> exists allowed,
        In allowed restrict
        /\ (domain = allowed \/ exists sub, domain = sub +:+ "." +:+ allowed).
Proof.
  split.
  - apply CrawlerSpec.is_allowed_listed.
  - intros (allowed & Hin & H). unfold is_allowed_domain.
    destruct (Url.in_list domain restrict); [reflexivity|].
    apply existsb_exists. exists allowed. split; [exact Hin|].
    apply orb_true_iff. destruct H as [->|[sub ->]].
    + right. apply String.eqb_refl.
    + left. apply CrawlSpec.suffix_endswith.
Qed.

Lemma allowed_domain_iff_suffix_witness :
  is_allowed_domain "blog.example.com" ["example.com"] = true
  /\ is_allowed_domain "example.com:8080" ["example.com"] = false
  /\ is_allowed_domain "notexample.com" ["example.com"] = false.
Proof.
  split; [|split; reflexivity].
  apply (proj2 (allowed_domain_iff_suffix "blog.example.com" ["example.com"])).
  exists "example.com". split; [left; reflexivity|].
  right. exists "blog". reflexivity.
Defined.

End CrawlerMore.

(** ** Further properties of the recursive crawler *)

Module ServiceMore.
Import Web Service.

(** *** Invariants that depend on the depth and on the links *)

Lemma crawl_recursive_invariant_at (e : Env) (cfg : Settings)
    (Q : string -> Z -> Prop) (P : State -> Prop) :
  (forall url depth link,
     Q url depth -> depth < max_depth cfg ->
     In link (_extract_links e url) ->
     _should_follow_url e cfg url link = true ->
     Q link (depth + 1)) ->
  (forall url depth st,
     Q url depth -> P st ->
     depth <= max_depth cfg ->
     Z.of_nat (length (pages_data st)) < max_pages cfg ->
     canonical e cfg url ∉ visited_urls st ->
     P (marked e cfg url st)
     /\ forall data, _crawl_page e url = Some data ->
                     P (appended data depth (marked e cfg url st))) ->
  forall fuel url depth st st',
    Q url depth -> P st ->
    _crawl_recursive e cfg fuel url depth st = Some st' -> P st'.
Proof.
  intros HQ Hstep fuel. induction fuel as [|fuel IH];
    intros url depth st st' Hurl HP Hrun; [discriminate|].
  rewrite ServiceSpec._crawl_recursive_step in Hrun.
  destruct (max_depth cfg <? depth) eqn:Hd; [injection Hrun as <-; exact HP|].
  destruct (max_pages cfg <=? _) eqn:Hn; [injection Hrun as <-; exact HP|].
  case_bool_decide as Hvis; [injection Hrun as <-; exact HP|].
  apply Z.ltb_ge in Hd. apply Z.leb_gt in Hn.
  destruct (Hstep url depth st Hurl HP Hd Hn Hvis) as [Hmark Happ].
  destruct (_crawl_page e url) as [data|];
    [|injection Hrun as <-; exact Hmark].
  specialize (Happ data eq_refl). cbv zeta in Hrun.
  destruct (depth <? max_depth cfg) eqn:Hlt;
    [|injection Hrun as <-; exact Happ].
  apply Z.ltb_lt in Hlt.
  destruct (_ <? max_pages cfg); [|injection Hrun as <-; exact Happ].
  cbn [andb] in Hrun.
  refine (ServiceSpec.crawl_links_invariant cfg P
            (fun link => Q link (depth + 1)) _ _ _ _ _ _ Happ Hrun).
  - intros link s s' Hlink Hs Hvisit.
    exact (IH link (depth + 1) s s' Hlink Hs Hvisit).
  - apply List.Forall_forall. intros link Hin. apply filter_In in Hin.
    destruct Hin as [Hin Hfollow]. exact (HQ url depth link Hurl Hlt Hin Hfollow).
Qed.

(** *** Depth of the pages *)

(** The crawl returns; each page it returns was appended by a call at a
    depth between 1 and [max_depth]. *)
Theorem recursive_crawl_depth_bound (e : Env) (cfg : Settings)
    (start_url : string) :
  (exists st', forall m,
     crawl_state e cfg (S (Z.to_nat (max_depth cfg)) + m) start_url = Some st')
  /\ forall fuel st',
       crawl_state e cfg fuel start_url = Some st' ->
       length (page_depths st') = length (pages_data st')
       /\ forall d, In d (page_depths st') -> 1 <= d <= max_depth cfg.
Proof.
  split.
  - destruct (ServiceSpec.crawl_recursive_total e cfg (S (Z.to_nat (max_depth cfg)))
                start_url 1 initial_state) as [st' Hrun]; [lia|lia|].
    exists st'. intros m. unfold crawl_state.
    apply ServiceSpec.crawl_recursive_more_fuel. exact Hrun.
  - unfold crawl_state. intros fuel st' Hrun.
    assert (Hinv : length (page_depths st') = length (pages_data st')
                   /\ Forall (fun d => 1 <= d <= max_depth cfg) (page_depths st')).
    { refine (crawl_recursive_invariant_at e cfg (fun _ d => 1 <= d)
                (fun s => length (page_depths s) = length (pages_data s)
                          /\ Forall (fun d => 1 <= d <= max_depth cfg) (page_depths s))
                _ _ fuel start_url 1 initial_state st' _ _ Hrun).
      - intros url depth link Hd _ _ _. lia.
      - intros url depth st Hd [Hlen Hall] Hmax _ _. simpl.
        split; [tauto|]. intros data _. rewrite !length_app, Hlen.
        split; [reflexivity|]. apply List.Forall_app. split; [exact Hall|].
        constructor; [lia|constructor].
      - lia.
      - split; [reflexivity|constructor]. }
    destruct Hinv as [Hlen Hall]. split; [exact Hlen|].
    rewrite List.Forall_forall in Hall. exact Hall.
Qed.

Lemma recursive_crawl_depth_bound_witness :
  let e := Sites.small_tree in
  let cfg := mkSettings 2 10 false [] true [] in
  exists st',
    crawl_state e cfg 3 "https://a.com/" = Some st'
    /\ List.map data_url (pages_data st')
       = ["https://a.com/"; "https://a.com/x"; "https://a.com/y"]
    /\ page_depths st' = [1; 2; 2]
    /\ forall d, In d (page_depths st') -> 1 <= d <= 2.
Proof.
  intros e cfg.
  destruct (recursive_crawl_depth_bound e cfg "https://a.com/") as [_ Hdepth].
  destruct (crawl_state e cfg 3 "https://a.com/") as [st'|] eqn:Hrun;
    [|vm_compute in Hrun; discriminate].
  exists st'. split; [reflexivity|].
  assert (Hst : Some st' = Some st') by reflexivity.
  rewrite <- Hrun in Hst at 1. vm_compute in Hst. injection Hst as <-.
  split; [reflexivity|]. split; [reflexivity|].
  refine (proj2 (Hdepth 3%nat _ _)). vm_compute. reflexivity.
Defined.

(** *** What is loaded *)

Lemma extract_links_http (e : Env) (url link : string) :
  In link (_extract_links e url) ->
  (Url.startswith link "http://" || Url.startswith link "https://") = true.
Proof.
  unfold _extract_links. destruct (driver e url); [|contradiction].
  intros Hin. apply filter_In in Hin. destruct Hin as [_ Hin].
  apply andb_true_iff in Hin. tauto.
Qed.

Lemma should_follow_passes (e : Env) (cfg : Settings) (base_url link : string) :
  _should_follow_url e cfg base_url link = true ->
  existsb (fun pattern => Url.str_in pattern link) (exclude_url_patterns cfg) = false
  /\ (restrict_to_domains cfg <> [] -> In (get_domain e link) (restrict_to_domains cfg)).
Proof.
  intros Hfollow. split.
  - unfold _should_follow_url in Hfollow.
    destruct (existsb _ _); [discriminate|reflexivity].
  - intros Hne. eapply ServiceSpec.should_follow_in_list; eauto.
Qed.

(** The crawl returns, and every URL it loads other than the start URL
    has passed the link filters: it starts with [http://] or [https://],
    contains none of the exclusion patterns and, when the domain list is
    not empty, its domain is in the list. *)
Theorem recursive_crawl_loads_filtered (e : Env) (cfg : Settings)
    (start_url : string) :
  (exists st', forall m,
     crawl_state e cfg (S (Z.to_nat (max_depth cfg)) + m) start_url = Some st')
  /\ forall fuel st' url,
       crawl_state e cfg fuel start_url = Some st' ->
       In url (loads st') ->
       url <> start_url ->
       passes_filters e cfg url.
Proof.
  split.
  - destruct (ServiceSpec.crawl_recursive_total e cfg (S (Z.to_nat (max_depth cfg)))
                start_url 1 initial_state) as [st' Hrun]; [lia|lia|].
    exists st'. intros m. unfold crawl_state.
    apply ServiceSpec.crawl_recursive_more_fuel. exact Hrun.
  - unfold crawl_state. intros fuel st' url Hrun Hin Hne.
    assert (Hinv : Forall (fun u => u = start_url \/ passes_filters e cfg u)
                     (loads st')).
    { refine (crawl_recursive_invariant_at e cfg
                (fun u _ => u = start_url \/ passes_filters e cfg u)
                (fun s => Forall (fun u => u = start_url \/ passes_filters e cfg u)
                            (loads s))
                _ _ fuel start_url 1 initial_state st' _ _ Hrun).
      - intros u depth link _ _ Hlink Hfollow. right.
        split; [eapply extract_links_http; exact Hlink|].
        apply (should_follow_passes e cfg u link Hfollow).
      - intros u depth st Hu Hall _ _ _. simpl.
        assert (Hall' : Forall (fun u => u = start_url \/ passes_filters e cfg u)
                          (loads st ++ [u])).
        { apply List.Forall_app. split; [exact Hall|].
          constructor; [exact Hu|constructor]. }
        split; [exact Hall'|]. intros data _. exact Hall'.
      - left. reflexivity.
      - constructor. }
    rewrite List.Forall_forall in Hinv.
    destruct (Hinv url Hin) as [Heq|Hpass]; [contradiction|exact Hpass].
Qed.

Lemma recursive_crawl_loads_filtered_witness :
  let e := Sites.env_of
             [("https://a.com/",
               Sites.linking ["https://a.com/admin"; "mailto:x@a.com";
                              "https://b.com/"; "https://a.com/ok"]);
              ("https://a.com/admin", Sites.linking []);
              ("https://b.com/", Sites.linking []);
              ("https://a.com/ok", Sites.linking [])] in
  let cfg := mkSettings 2 10 false ["a.com"] true ["admin"] in
  exists st',
    crawl_state e cfg 3 "https://a.com/" = Some st'
    /\ loads st' = ["https://a.com/"; "https://a.com/ok"]
    /\ passes_filters e cfg "https://a.com/ok".
Proof.
  intros e cfg.
  destruct (recursive_crawl_loads_filtered e cfg "https://a.com/") as [_ Hpass].
  destruct (crawl_state e cfg 3 "https://a.com/") as [st'|] eqn:Hrun;
    [|vm_compute in Hrun; discriminate].
  exists st'. split; [reflexivity|].
  assert (Hst : Some st' = Some st') by reflexivity.
  rewrite <- Hrun in Hst at 1. vm_compute in Hst. injection Hst as <-.
  split; [reflexivity|].
  refine (Hpass 3%nat _ "https://a.com/ok" _ _ _).
  - vm_compute. reflexivity.
  - right. left. reflexivity.
  - discriminate.
Defined.

(** *** The start page *)

Lemma pages_grow (e : Env) (cfg : Settings) (fuel : nat) (url : string)
    (depth : Z) (st st' : State) :
  _crawl_recursive e cfg fuel url depth st = Some st' ->
  exists more, pages_data st' = pages_data st ++ more.
Proof.
  intros Hrun.
  refine (ServiceSpec.crawl_recursive_invariant e cfg (fun _ => True)
            (fun s => exists more, pages_data s = pages_data st ++ more)
            _ _ fuel url depth st st' I _ Hrun).
  - tauto.
  - intros u d s _ [more Hs] _ _ _. simpl. split; [exists more; exact Hs|].
    intros data _. exists (more ++ [data]). rewrite Hs, app_assoc. reflexivity.
  - exists []. rewrite app_nil_r. reflexivity.
Qed.

Lemma pages_grow_links (e : Env) (cfg : Settings) (fuel : nat) (depth : Z)
    (links : list string) (st st' : State) :
  crawl_links cfg (fun link s => _crawl_recursive e cfg fuel link depth s)
    links st = Some st' ->
  exists more, pages_data st' = pages_data st ++ more.
Proof.
  intros Hrun.
  refine (ServiceSpec.crawl_links_invariant cfg
            (fun s => exists more, pages_data s = pages_data st ++ more)
            (fun _ => True) _ _ links st st' _ _ Hrun).
  - intros link s s' _ [more Hs] Hvisit.
    destruct (pages_grow e cfg fuel link depth s s' Hvisit) as [more' Hs'].
    exists (more ++ more'). rewrite Hs', Hs, app_assoc. reflexivity.
  - apply List.Forall_forall. tauto.
  - exists []. rewrite app_nil_r. reflexivity.
Qed.

(** The crawl returns.  The list is empty when [max_depth] is below 1,
    [max_pages] is below 1 or the start page fails to load; otherwise its
    first page is the start page. *)
Theorem recursive_crawl_starts_with_start_page (e : Env) (cfg : Settings)
    (start_url : string) :
  (exists res, forall m,
     crawl e cfg (S (Z.to_nat (max_depth cfg)) + m) start_url = Some res)
  /\ forall fuel res,
       crawl e cfg fuel start_url = Some res ->
       (max_depth cfg < 1 \/ max_pages cfg < 1 \/ driver e start_url = None ->
        res = [])
       /\ forall pg,
            1 <= max_depth cfg -> 1 <= max_pages cfg ->
            driver e start_url = Some pg ->
            exists more,
              res = mkData start_url (title pg) (description pg) (body_text pg)
                    :: more.
Proof.
  split; [apply ServiceSpec.recursive_crawl_terminates|].
  unfold crawl, crawl_state. intros fuel res Hrun.
  destruct (_crawl_recursive e cfg fuel start_url 1 initial_state)
    as [st'|] eqn:E; [|discriminate].
  injection Hrun as <-.
  destruct fuel as [|fuel]; [discriminate E|].
  rewrite ServiceSpec._crawl_recursive_step in E.
  destruct (max_depth cfg <? 1) eqn:Hd.
  { apply Z.ltb_lt in Hd. injection E as <-.
    split; [reflexivity|intros pg Hge; lia]. }
  apply Z.ltb_ge in Hd.
  change (Z.of_nat (length (pages_data initial_state))) with 0 in E.
  destruct (max_pages cfg <=? 0) eqn:Hn.
  { apply Z.leb_le in Hn. injection E as <-.
    split; [reflexivity|intros pg _ Hge; lia]. }
  apply Z.leb_gt in Hn.
  rewrite bool_decide_eq_false_2 in E by (simpl; set_solver).
  unfold _crawl_page in E.
  destruct (driver e start_url) as [pg|].
  - cbv zeta in E.
    assert (Hgrow : exists more,
              pages_data st'
              = [mkData start_url (title pg) (description pg) (body_text pg)]
                ++ more).
    { destruct (_ && _).
      - apply pages_grow_links in E. exact E.
      - injection E as <-. exists []. reflexivity. }
    destruct Hgrow as [more Hmore]. split.
    + intros [Hlt|[Hlt|Hnone]]; [lia|lia|discriminate].
    + intros pg' _ _ Hpg. injection Hpg as <-. exists more. exact Hmore.
  - injection E as <-. split; [reflexivity|].
    intros pg _ _ Hpg. discriminate.
Qed.

Lemma recursive_crawl_starts_with_start_page_witness :
  let e := Sites.small_tree in
  let cfg := mkSettings 2 10 false [] true [] in
  (exists more,
     crawl e cfg 3 "https://a.com/" = Some (mkData "https://a.com/" "t" "" "body" :: more))
  /\ crawl e cfg 3 "https://a.com/missing" = Some []
  /\ crawl e (mkSettings 0 10 false [] true []) 1 "https://a.com/" = Some []
  /\ crawl e (mkSettings 2 0 false [] true []) 1 "https://a.com/" = Some [].
Proof.
  intros e cfg.
  destruct (recursive_crawl_starts_with_start_page e cfg "https://a.com/")
    as [_ Hfirst].
  destruct (crawl e cfg 3 "https://a.com/") as [res|] eqn:Hrun;
    [|vm_compute in Hrun; discriminate].
  destruct (Hfirst 3%nat res Hrun) as [_ Hhead].
  destruct (Hhead (Sites.linking ["https://a.com/x"; "https://a.com/y"]))
    as [more ->]; [simpl; lia|simpl; lia|reflexivity|].
  split; [exists more; reflexivity|].
  repeat split; vm_compute; reflexivity.
Defined.

(** *** The page cap and the canonical URLs, on an example *)


(** *** Visiting once *)

(** The crawl returns.  It loads no URL twice and returns no URL twice;
    and when [ignore_query_strings] is set, no two URLs it loads and no
    two pages it returns have the same normalized URL, that is the same
    scheme, network location and path. *)
Theorem recursive_crawl_visits_once (e : Env) (cfg : Settings)
    (start_url : string) :
  (exists st', forall m,
     crawl_state e cfg (S (Z.to_nat (max_depth cfg)) + m) start_url = Some st')
  /\ forall fuel st',
       crawl_state e cfg fuel start_url = Some st' ->
       List.NoDup (loads st')
       /\ List.NoDup (List.map data_url (pages_data st'))
       /\ (ignore_query_strings cfg = true ->
           List.NoDup (List.map (normalize_url e) (loads st'))
           /\ List.NoDup (List.map (normalize_url e)
                            (List.map data_url (pages_data st')))).
Proof.
  split.
  - destruct (ServiceSpec.crawl_recursive_total e cfg (S (Z.to_nat (max_depth cfg)))
                start_url 1 initial_state) as [st' Hrun]; [lia|lia|].
    exists st'. intros m. unfold crawl_state.
    apply ServiceSpec.crawl_recursive_more_fuel. exact Hrun.
  - intros fuel st' Hrun.
    destruct (ServiceSpec.pages_data_canonical_once e cfg fuel start_url st' Hrun)
      as [Hloads Hpages].
    split; [exact (List.NoDup_map_inv _ _ Hloads)|].
    split; [exact (List.NoDup_map_inv _ _ Hpages)|].
    intros Hignore.
    assert (Hkey : forall l, List.map (canonical e cfg) l
                             = List.map (normalize_url e) l).
    { intros l. apply List.map_ext. intros url. unfold canonical.
      rewrite Hignore. reflexivity. }
    rewrite <- !Hkey. split; assumption.
Qed.

Lemma recursive_crawl_visits_once_witness :
  let e := Sites.two_queries in
  let cfg := mkSettings 2 10 false [] true [] in
  ignore_query_strings cfg = true
  /\ exists st',
       crawl_state e cfg 3 "https://a.com/" = Some st'
       /\ loads st' = ["https://a.com/"; "https://a.com/p?x=1"]
       /\ List.NoDup (List.map (normalize_url e)
                        (List.map data_url (pages_data st'))).
Proof.
  intros e cfg. split; [reflexivity|].
  destruct (recursive_crawl_visits_once e cfg "https://a.com/") as [_ Honce].
  destruct (crawl_state e cfg 3 "https://a.com/") as [st'|] eqn:Hrun;
    [|vm_compute in Hrun; discriminate].
  exists st'. split; [reflexivity|].
  assert (Hst : Some st' = Some st') by reflexivity.
  rewrite <- Hrun in Hst at 1. vm_compute in Hst. injection Hst as <-.
  split; [reflexivity|].
  refine (proj2 (proj2 (proj2 (Honce 3%nat _ _)) eq_refl)). vm_compute. reflexivity.
Defined.

(** *** The crawl as [scrape_with_selenium] runs and reports it *)

(** [scrape_with_selenium] always gets its list of crawled pages.  It
    crawls nothing unless both [max_depth] and [max_pages] exceed 1, and
    the number of pages it reports never exceeds [max_pages]; crawling is
    reported exactly when [max_depth] exceeds 1, so that with
    [max_pages] at most 1 it is reported as enabled with no page. *)
Theorem selenium_crawl_report (e : Env) (exclude : list string) (url : string)
    (a : CrawlArgs) :
  (exists res, forall m,
     crawled_pages_data e exclude (S (Z.to_nat (arg_max_depth a)) + m) url a
     = Some res)
  /\ forall fuel res,
       crawled_pages_data e exclude fuel url a = Some res ->
       (arg_max_depth a <= 1 \/ arg_max_pages a <= 1 -> res = [])
       /\ (res <> [] -> Z.of_nat (length res) <= arg_max_pages a)
       /\ (arg_max_depth a <= 1 -> crawling a res = None)
       /\ (1 < arg_max_depth a ->
           crawling a res
           = Some (mkCrawling true (length res) (arg_max_depth a)
                     (List.map data_url res))).
Proof.
  split.
  - unfold crawled_pages_data. destruct (_ && _); [|exists []; reflexivity].
    apply (ServiceSpec.recursive_crawl_terminates e
             (crawler_settings e exclude url a) url).
  - intros fuel res Hrun. unfold crawled_pages_data in Hrun.
    destruct (1 <? arg_max_depth a) eqn:Hd; destruct (1 <? arg_max_pages a) eqn:Hp;
      cbn [andb] in Hrun;
      try apply Z.ltb_lt in Hd; try apply Z.ltb_ge in Hd;
      try apply Z.ltb_lt in Hp; try apply Z.ltb_ge in Hp.
    + assert (Hlen : Z.of_nat (length res) <= arg_max_pages a).
      { apply (ServiceSpec.pages_data_bounded e (crawler_settings e exclude url a)
                 fuel url res); [simpl; lia|exact Hrun]. }
      split; [lia|]. split; [tauto|]. split; [lia|].
      intros _. unfold crawling.
      rewrite (proj2 (Z.ltb_lt 1 (arg_max_depth a)) Hd), length_map. reflexivity.
    + injection Hrun as <-. split; [reflexivity|]. split; [tauto|].
      split; [lia|]. intros _. unfold crawling.
      rewrite (proj2 (Z.ltb_lt 1 (arg_max_depth a)) Hd). reflexivity.
    + injection Hrun as <-. split; [reflexivity|]. split; [tauto|].
      split; [|lia]. intros _. unfold crawling.
      rewrite (proj2 (Z.ltb_ge 1 (arg_max_depth a)) Hd). reflexivity.
    + injection Hrun as <-. split; [reflexivity|]. split; [tauto|].
      split; [|lia]. intros _. unfold crawling.
      rewrite (proj2 (Z.ltb_ge 1 (arg_max_depth a)) Hd). reflexivity.
Qed.

Lemma selenium_crawl_report_witness :
  let e := Sites.small_tree in
  crawled_pages_data e [] 2 "https://a.com/" default_args = Some []
  /\ crawling default_args [] = None
  /\ crawling (mkArgs 3 1 false true true) []
     = Some (mkCrawling true 0 3 [])
  /\ exists res,
       crawled_pages_data e [] 4 "https://a.com/" (mkArgs 3 2 false true true)
       = Some res
       /\ Z.of_nat (length res) <= 2.
Proof.
  intros e.
  destruct (selenium_crawl_report e [] "https://a.com/" (mkArgs 3 1 false true true))
    as [_ Hone].
  destruct (Hone 2%nat [] eq_refl) as (_ & _ & _ & Hon).
  destruct (selenium_crawl_report e [] "https://a.com/" (mkArgs 3 2 false true true))
    as [_ Htwo].
  split; [reflexivity|]. split; [reflexivity|].
  split; [apply Hon; simpl; lia|].
  destruct (crawled_pages_data e [] 4 "https://a.com/" (mkArgs 3 2 false true true))
    as [res|] eqn:Hrun; [|vm_compute in Hrun; discriminate].
  exists res. split; [reflexivity|].
  destruct (Htwo 4%nat res Hrun) as (_ & Hlen & _).
  apply Hlen. intros ->. vm_compute in Hrun. discriminate.
Defined.

End ServiceMore.

(** ** Further properties of the browser pool *)

Module PoolMore.
Import Pool.

(** *** What a borrow lends *)

Lemma find_idle (h : gmap nat BrowserInstance) (p : list nat) (i : nat) :
  List.find (is_idle h) p = Some i -> In i p /\ is_idle h i = true.
Proof. apply find_some. Qed.

Lemma find_busy (h : gmap nat BrowserInstance) (p : list nat) :
  List.find (is_idle h) p = None -> forall i, In i p -> is_idle h i = false.
Proof. intros H i. apply (find_none _ _ H). Qed.

(** After any history, a borrow fails only when no pooled instance is
    free and no browser can be started, and then changes nothing.
    Otherwise it lends an instance that was not in use: a pooled one that
    was free, without starting a browser, or else a newly created one.
    The instance lent is marked in use and stamped; no other instance
    changes. *)
Theorem borrow_lends_free_instance (cfg : Settings) (ops : list Op)
    (now : Z) (launch : bool) :
  let bp := run cfg ops in
  let bp' := fst (get_browser cfg now launch bp) in
  let lent := snd (get_browser cfg now launch bp) in
  (lent = None <->
   launch = false /\ forall i, In i (pool bp) -> is_idle (heap bp) i = false)
  /\ (lent = None -> bp' = bp)
  /\ forall i,
       lent = Some i ->
       heap bp' !! i = Some (mkInstance i now true)
       /\ (forall j, j <> i -> heap bp' !! j = heap bp !! j)
       /\ quit_log bp' = quit_log bp
       /\ ((In i (pool bp) /\ is_idle (heap bp) i = true
            /\ pool bp' = pool bp /\ next_id bp' = next_id bp)
           \/ (heap bp !! i = None /\ launch = true
               /\ (forall k, In k (pool bp) -> is_idle (heap bp) k = false)
               /\ next_id bp' = S (next_id bp))).
Proof.
  intros bp bp' lent.
  pose proof (PoolSpec.well_formed_run cfg ops) as Hwf. fold bp in Hwf.
  assert (Hfresh : heap bp !! next_id bp = None).
  { destruct (heap bp !! next_id bp) as [inst|] eqn:E; [|reflexivity].
    apply (wf_heap _ Hwf) in E. lia. }
  subst bp' lent. unfold get_browser.
  destruct (List.find (is_idle (heap bp)) (pool bp)) as [i|] eqn:Hfind.
  - apply find_idle in Hfind. destruct Hfind as [Hin Hidle]. simpl.
    split; [split; [discriminate|]|].
    { intros [_ Hbusy]. rewrite (Hbusy i Hin) in Hidle. discriminate. }
    split; [discriminate|].
    intros j Hj. injection Hj as <-.
    destruct (wf_pool _ Hwf i Hin) as [inst Hinst].
    destruct (wf_heap _ Hwf i inst Hinst) as [_ Hdrv].
    split; [rewrite lookup_alter_eq, Hinst; simpl; unfold touch; rewrite Hdrv;
            reflexivity|].
    split; [intros j Hne; apply lookup_alter_ne; congruence|].
    split; [reflexivity|]. left. tauto.
  - pose proof (find_busy _ _ Hfind) as Hbusy.
    destruct (Z.of_nat (length (pool bp)) <? BROWSER_POOL_SIZE cfg);
      destruct launch; simpl.
    all: split; [split; [try discriminate; tauto|intros [? _]; try discriminate
                                                  ; reflexivity]|].
    all: split; [try discriminate; reflexivity|].
    all: intros i Hi; try discriminate; injection Hi as <-.
    all: split; [apply lookup_insert_eq|].
    all: split; [intros j Hne; apply lookup_insert_ne; congruence|].
    all: split; [reflexivity|right; tauto].
Qed.

Lemma borrow_lends_free_instance_witness :
  let cfg := mkSettings 2 300 in
  let ops := [Borrow 0 true; Borrow 1 true; Release 5 0%nat] in
  snd (get_browser cfg 9 false (run cfg ops)) = Some 0%nat
  /\ heap (fst (get_browser cfg 9 false (run cfg ops))) !! 0%nat
     = Some (mkInstance 0 9 true)
  /\ snd (get_browser cfg 9 false (run cfg [Borrow 0 true; Borrow 1 true])) = None.
Proof.
  intros cfg ops.
  destruct (borrow_lends_free_instance cfg ops 9 false) as (_ & _ & Hlent).
  destruct (borrow_lends_free_instance cfg [Borrow 0 true; Borrow 1 true] 9 false)
    as (Hnone & _).
  split; [reflexivity|].
  split; [exact (proj1 (Hlent 0%nat eq_refl))|].
  apply Hnone. split; [reflexivity|].
  intros i [<-|[<-|[]]]; reflexivity.
Defined.

(** *** Filling the pool *)

Lemma run_snoc (cfg : Settings) (ops : list Op) (o : Op) :
  run cfg (ops ++ [o]) = step cfg (run cfg ops) o.
Proof. unfold run. rewrite fold_left_app. reflexivity. Qed.

(** Borrowing [k] times from a new pool of capacity [n] without any
    release creates [k] instances, all in use, of which the first [n]
    are in the pool: the borrows beyond the [n]-th get temporary
    instances. *)
Theorem borrows_fill_pool (n : nat) (idle_time : Z) (times : list Z) :
  let cfg := mkSettings (Z.of_nat n) idle_time in
  let bp := run cfg (List.map (fun t => Borrow t true) times) in
  pool bp = seq 0 (Nat.min (length times) n)
  /\ next_id bp = length times
  /\ forall i, (i < length times)%nat ->
       exists t, heap bp !! i = Some (mkInstance i t true).
Proof.
  intros cfg. induction times as [|t times IH] using rev_ind.
  - simpl. split; [reflexivity|]. split; [reflexivity|]. intros i Hi. lia.
  - rewrite List.map_app. simpl List.map. rewrite run_snoc.
    set (bp := run cfg (List.map (fun t => Borrow t true) times)) in *.
    cbv zeta in IH. destruct IH as (Hpool & Hnext & Hheap).
    rewrite length_app. simpl length.
    assert (Hbusy : forall i, In i (pool bp) -> is_idle (heap bp) i = false).
    { intros i Hi. rewrite Hpool in Hi. apply in_seq in Hi.
      destruct (Hheap i) as [t' Ht']; [lia|].
      unfold is_idle. rewrite Ht'. reflexivity. }
    simpl step. unfold get_browser.
    rewrite (PoolSpec.find_all_busy _ _ Hbusy).
    assert (Hlen : length (pool bp) = Nat.min (length times) n)
      by (rewrite Hpool; apply length_seq).
    destruct (Z.of_nat (length (pool bp)) <? BROWSER_POOL_SIZE cfg) eqn:E;
      simpl in E; [apply Z.ltb_lt in E|apply Z.ltb_ge in E]; simpl.
    + split; [|split].
      * rewrite Hpool, Hnext.
        replace (Nat.min (length times) n) with (length times) by lia.
        replace (Nat.min (length times + 1) n) with (S (length times)) by lia.
        rewrite seq_S. reflexivity.
      * lia.
      * intros i Hi. destruct (decide (i = length times)) as [->|Hne].
        -- exists t. rewrite Hnext. apply lookup_insert_eq.
        -- rewrite lookup_insert_ne by lia. apply Hheap. lia.
    + split; [|split].
      * rewrite Hpool. f_equal. lia.
      * lia.
      * intros i Hi. destruct (decide (i = length times)) as [->|Hne].
        -- exists t. rewrite Hnext. apply lookup_insert_eq.
        -- rewrite lookup_insert_ne by lia. apply Hheap. lia.
Qed.

Lemma borrows_fill_pool_witness :
  let cfg := mkSettings 2 300 in
  let bp := run cfg [Borrow 1 true; Borrow 2 true; Borrow 3 true] in
  pool bp = [0%nat; 1%nat]
  /\ exists t, heap bp !! 2%nat = Some (mkInstance 2 t true).
Proof.
  intros cfg bp.
  destruct (borrows_fill_pool 2 300 [1; 2; 3]) as (Hpool & _ & Hheap).
  split; [exact Hpool|]. apply Hheap. simpl. lia.
Defined.

(** *** Shutdown *)

(** After any history, [shutdown] empties the pool, calls [quit()] on
    the driver of each instance the pool held, in pool order, whether
    lent or not, and stops the sweeps; a second [shutdown] changes
    nothing. *)
Theorem shutdown_closes_pool (cfg : Settings) (ops : list Op) :
  let bp := run cfg ops in
  pool (shutdown bp) = []
  /\ quit_log (shutdown bp) = quit_log bp ++ pool bp
  /\ running (shutdown bp) = false
  /\ heap (shutdown bp) = heap bp
  /\ shutdown (shutdown bp) = shutdown bp.
Proof.
  intros bp.
  pose proof (PoolSpec.well_formed_run cfg ops) as Hwf. fold bp in Hwf.
  split; [reflexivity|]. split.
  { pose proof (PoolSpec.drivers_of_pooled bp (pool bp) Hwf (fun d H => H)) as Hd.
    unfold drivers_of in Hd. simpl. rewrite Hd. reflexivity. }
  split; [reflexivity|]. split; [reflexivity|].
  unfold shutdown. simpl. rewrite app_nil_r. reflexivity.
Qed.

(** *** Temporary instances, on an example *)

Lemma temporary_browser_never_closed_witness :
  let cfg := mkSettings 1 300 in
  let ops := [Borrow 0 true] in
  exists bp' i,
    get_browser cfg 1 true (run cfg ops) = (bp', Some i)
    /\ ~ In i (quit_log (fold_left (step cfg)
                           [Release 2 i; Release 3 0%nat; Sweep 1000; Shutdown] bp')).
Proof.
  intros cfg ops.
  destruct (PoolSpec.temporary_browser_never_closed cfg ops 1)
    as (bp' & i & Hget & _ & Hnever).
  - reflexivity.
  - intros i [<-|[]]. reflexivity.
  - exists bp', i. split; [exact Hget|]. apply Hnever.
Defined.

End PoolMore.

(** ** Scraping with Trafilatura *)

Module TextScraperSpec.
Import Web TextScraper.

Lemma prefix_app (p s : string) : String.prefix p (p +:+ s) = true.
Proof.
  induction p as [|c p IH]; [change ("" +:+ s) with s; destruct s; reflexivity|].
  change (String c p +:+ s) with (String c (p +:+ s)). simpl.
  destruct (ascii_dec c c); [exact IH|contradiction].
Qed.

Lemma checked_url_cases (e : Env) (url u : string) :
  checked_url e url = Some u ->
  is_valid_url e u = true
  /\ (u = url
      \/ (u = "https://" +:+ url
          /\ has_http_prefix url = false /\ is_valid_url e url = false)).
Proof.
  unfold checked_url.
  destruct (is_valid_url e url) eqn:Hv; simpl.
  - intros H. injection H as <-. tauto.
  - destruct (has_http_prefix url) eqn:Hp; simpl; [discriminate|].
    destruct (is_valid_url e ("https://" +:+ url)) eqn:Hv'; simpl; [|discriminate].
    intros H. injection H as <-. tauto.
Qed.

Lemma success_original (tr : Trafilatura) (e : Env) (url : string)
    (with_metadata : bool) (data : Data) :
  scrape_with_trafilatura tr e url with_metadata = Success data ->
  checked_url e url = Some (original data).
Proof.
  unfold scrape_with_trafilatura.
  destruct (checked_url e url) as [u|]; [|discriminate].
  destruct (fetch_url tr u) as [downloaded|]; [|discriminate].
  destruct (falsy downloaded); [discriminate|].
  destruct (extract tr (or_empty downloaded)) as [text|]; [|discriminate].
  destruct with_metadata.
  - destruct (extract_metadata tr (or_empty downloaded)) as [[m|]|];
      [| |discriminate]; intros Hres; injection Hres as <-; reflexivity.
  - intros Hres. injection Hres as <-. reflexivity.
Qed.

(** Whatever Trafilatura does, a successful result of
    [scrape_with_trafilatura] is about a URL with a scheme and a network
    location: the URL reported is the one given, or the one given with
    [https://] put in front when it was not valid and had no such
    prefix; the domain reported is its network location and is not
    empty; [content_length] is the length of the content; and the
    download of that URL returned a document that is not empty. *)
Theorem trafilatura_success_is_sound (tr : Trafilatura) (e : Env) (url : string)
    (with_metadata : bool) (data : Data) :
  scrape_with_trafilatura tr e url with_metadata = Success data ->
  is_valid_url e (original data) = true
  /\ (original data = url
      \/ (original data = "https://" +:+ url
          /\ has_http_prefix url = false /\ is_valid_url e url = false))
  /\ domain data = get_domain e (original data)
  /\ domain data <> ""
  /\ content_length data = String.length (content data)
  /\ exists doc, fetch_url tr (original data) = Some (Some doc) /\ doc <> "".
Proof.
  unfold scrape_with_trafilatura.
  destruct (checked_url e url) as [u|] eqn:Hu; [|discriminate].
  apply checked_url_cases in Hu. destruct Hu as [Hvalid Hu].
  destruct (fetch_url tr u) as [downloaded|] eqn:Hfetch; [|discriminate].
  destruct (falsy downloaded) eqn:Hfalsy; [discriminate|].
  destruct (extract tr (or_empty downloaded)) as [text|]; [|discriminate].
  assert (Hdom : get_domain e u <> "").
  { unfold is_valid_url in Hvalid. apply andb_true_iff in Hvalid.
    destruct Hvalid as [Hloc _]. apply negb_true_iff in Hloc.
    intros Heq. unfold get_domain in Heq. rewrite Heq in Hloc. discriminate. }
  assert (Hdoc : exists doc, Some downloaded = Some (Some doc) /\ doc <> "").
  { unfold falsy, or_empty in Hfalsy. destruct downloaded as [doc|]; simpl in Hfalsy;
      [|discriminate].
    exists doc. split; [reflexivity|]. intros ->. discriminate. }
  intros Hres.
  assert (Hall : forall t d dt,
            data = mkData (or_empty text) u (get_domain e u)
                     (String.length (or_empty text)) t d dt ->
            is_valid_url e (original data) = true
            /\ (original data = url
                \/ (original data = "https://" +:+ url
                    /\ has_http_prefix url = false /\ is_valid_url e url = false))
            /\ domain data = get_domain e (original data)
            /\ domain data <> ""
            /\ content_length data = String.length (content data)
            /\ exists doc, fetch_url tr (original data) = Some (Some doc) /\ doc <> "").
  { intros t d dt ->. simpl. rewrite Hfetch. tauto. }
  destruct with_metadata.
  - destruct (extract_metadata tr (or_empty downloaded)) as [[m|]|];
      [| |discriminate]; injection Hres as <-; eapply Hall; reflexivity.
  - injection Hres as <-. eapply Hall; reflexivity.
Qed.

Lemma trafilatura_success_is_sound_witness :
  let tr := mkTrafilatura (fun _ => Some (Some "<html>hello</html>"))
              (fun _ => Some (Some "hello")) (fun _ => Some None) in
  let e := Sites.env_of [] in
  exists data,
    scrape_with_trafilatura tr e "example.com/a" true = Success data
    /\ original data = "https://example.com/a"
    /\ domain data = "example.com"
    /\ content_length data = 5%nat
    /\ is_valid_url e (original data) = true.
Proof.
  intros tr e. eexists. split; [reflexivity|].
  split; [reflexivity|]. split; [reflexivity|]. split; [reflexivity|].
  eapply (trafilatura_success_is_sound tr e "example.com/a" true). reflexivity.
Defined.

(** A request URL that passes the check of the endpoints starts with
    [http://] or [https://] and passes the check again unchanged.  On
    such a URL [scrape_with_trafilatura] never puts [https://] in front:
    it reports the URL as given or answers "Invalid URL format", and it
    gives that answer, whatever Trafilatura would do, when the URL has no
    scheme or no network location. *)
Theorem endpoint_url_is_not_repaired (e : Env) (url u : string) :
  request_url url = Some u ->
  has_http_prefix u = true
  /\ request_url u = Some u
  /\ forall tr with_metadata,
       (is_valid_url e u = false ->
        scrape_with_trafilatura tr e u with_metadata = Failure InvalidUrlFormat)
       /\ forall data,
            scrape_with_trafilatura tr e u with_metadata = Success data ->
            original data = u.
Proof.
  unfold request_url. destruct (String.eqb url "") eqn:Hempty; [discriminate|].
  intros Hu.
  assert (Hprefix : has_http_prefix u = true).
  { destruct (has_http_prefix url) eqn:Hp; simpl in Hu; injection Hu as <-.
    - exact Hp.
    - unfold has_http_prefix, Url.startswith.
      rewrite (prefix_app "https://" url). apply orb_true_r. }
  assert (Hne : String.eqb u "" = false).
  { destruct (has_http_prefix url); simpl in Hu; injection Hu as <-;
      [exact Hempty|reflexivity]. }
  split; [exact Hprefix|]. split.
  { rewrite Hne, Hprefix. reflexivity. }
  intros tr with_metadata. split.
  - intros Hinvalid. unfold scrape_with_trafilatura, checked_url.
    rewrite Hinvalid, Hprefix. reflexivity.
  - intros data Hres.
    apply success_original, checked_url_cases in Hres.
    destruct Hres as (_ & [Heq|(_ & Hp & _)]); [exact Heq|congruence].
Qed.

Lemma endpoint_url_is_not_repaired_witness :
  let e := Sites.env_of [] in
  request_url "example.com" = Some "https://example.com"
  /\ request_url "https://example.com" = Some "https://example.com"
  /\ request_url "" = None
  /\ request_url "http://" = Some "http://"
  /\ forall tr, scrape_with_trafilatura tr e "http://" true = Failure InvalidUrlFormat.
Proof.
  intros e.
  destruct (endpoint_url_is_not_repaired e "http://" "http://" eq_refl)
    as (_ & _ & Hscrape).
  split; [reflexivity|]. split; [reflexivity|]. split; [reflexivity|].
  split; [reflexivity|].
  intros tr. apply (Hscrape tr true). reflexivity.
Defined.

End TextScraperSpec.

(** ** Tokens *)

Module TokensSpec.
Import Tokens.

Local Set Warnings "-clear-no-such-hyp".

Lemma token_guard_between (writable : bool) (token : option string) (st : Store) :
  VALIDATED_TOKENS st ⊆ VALIDATED_TOKENS (fst (token_guard writable token st))
  /\ VALIDATED_TOKENS (fst (token_guard writable token st))
     ⊆ VALIDATED_TOKENS st ∪ {[ API_TOKEN ]}.
Proof.
  destruct token as [t|]; simpl; [|set_solver].
  unfold verify_token. case_bool_decide; simpl; [set_solver|].
  destruct (String.eqb t API_TOKEN) eqn:E; simpl; [|set_solver].
  apply String.eqb_eq in E. subst t.
  unfold save_validated_tokens. destruct writable; simpl; set_solver.
Qed.

Lemma serve_between (st : Store) (requests : list (option string * bool)) :
  VALIDATED_TOKENS st ⊆ VALIDATED_TOKENS (serve st requests)
  /\ VALIDATED_TOKENS (serve st requests)
     ⊆ VALIDATED_TOKENS st ∪ {[ API_TOKEN ]}.
Proof.
  unfold serve. revert st.
  induction requests as [|[token writable] requests IH]; intros st; simpl.
  - set_solver.
  - destruct (IH (fst (token_guard writable token st))) as [Hlow Hhigh].
    destruct (token_guard_between writable token st) as [Hlow' Hhigh'].
    set_solver.
Qed.

(** After any history of requests, a token is accepted exactly when it
    is the master token or was among the validated tokens at the start:
    the set of validated tokens never loses a token and gains at most
    the master token.  A request without token is always let through and
    leaves the store as it is. *)
Theorem tokens_accept_master_or_known (st : Store)
    (requests : list (option string * bool)) (writable : bool) (token : string) :
  let st' := serve st requests in
  (snd (verify_token writable token st') = true
   <-> token = API_TOKEN \/ token ∈ VALIDATED_TOKENS st)
  /\ VALIDATED_TOKENS st ⊆ VALIDATED_TOKENS st'
  /\ VALIDATED_TOKENS st' ⊆ VALIDATED_TOKENS st ∪ {[ API_TOKEN ]}
  /\ token_guard writable None st' = (st', true).
Proof.
  intros st'. destruct (serve_between st requests) as [Hlow Hhigh].
  fold st' in Hlow, Hhigh.
  split; [|split; [exact Hlow|split; [exact Hhigh|reflexivity]]].
  unfold verify_token. case_bool_decide as Hin; simpl.
  - split; [intros _|reflexivity]. set_solver.
  - destruct (String.eqb token API_TOKEN) eqn:E; simpl.
    + apply String.eqb_eq in E. tauto.
    + split; [discriminate|]. intros [->|Hknown].
      * rewrite String.eqb_refl in E. discriminate.
      * exfalso. apply Hin. set_solver.
Qed.

Lemma tokens_accept_master_or_known_witness :
  let st := mkStore ∅ None in
  let st' := serve st [(Some "guess", true); (None, true);
                       (Some "scraper-token-12345", false)] in
  snd (verify_token true "guess" st') = false
  /\ snd (verify_token true "scraper-token-12345" st') = true
  /\ VALIDATED_TOKENS st' ⊆ {[ API_TOKEN ]}.
Proof.
  intros st st'.
  destruct (tokens_accept_master_or_known st
              [(Some "guess", true); (None, true);
               (Some "scraper-token-12345", false)] true "scraper-token-12345")
    as (Hiff & _ & Hhigh & _).
  fold st' in Hiff, Hhigh.
  split; [reflexivity|]. split; [apply Hiff; left; reflexivity|].
  simpl in Hhigh. set_solver.
Defined.

(** A token validated while the file can be written is still accepted
    after a restart: the file then lists the validated tokens, and
    loading it into an empty set gives them back. *)
Theorem validated_token_survives_restart (st : Store) (token : string) :
  token ∉ VALIDATED_TOKENS st ->
  snd (verify_token true token st) = true ->
  let st1 := fst (verify_token true token st) in
  let restarted := load_validated_tokens true (mkStore ∅ (token_file st1)) in
  VALIDATED_TOKENS restarted = VALIDATED_TOKENS st1
  /\ token ∈ VALIDATED_TOKENS restarted
  /\ forall writable, verify_token writable token restarted = (restarted, true).
Proof.
  intros Hnew. unfold verify_token.
  rewrite bool_decide_eq_false_2 by exact Hnew.
  destruct (String.eqb token API_TOKEN); [|discriminate].
  intros _. simpl.
  assert (Hset : list_to_set (elements ({[ token ]} ∪ VALIDATED_TOKENS st))
                 = ({[ token ]} ∪ VALIDATED_TOKENS st : gset string)).
  { apply list_to_set_elements_L. }
  unfold load_validated_tokens. simpl. rewrite Hset.
  split; [reflexivity|]. split; [set_solver|].
  intros writable. rewrite bool_decide_eq_true_2 by set_solver. reflexivity.
Qed.

Lemma validated_token_survives_restart_witness :
  let st := mkStore ∅ None in
  let st1 := fst (verify_token true API_TOKEN st) in
  token_file st1 = Some [API_TOKEN]
  /\ API_TOKEN ∈ VALIDATED_TOKENS
                   (load_validated_tokens true (mkStore ∅ (token_file st1))).
Proof.
  intros st st1. split; [vm_compute; reflexivity|].
  apply (validated_token_survives_restart st API_TOKEN);
    [set_solver|reflexivity].
Defined.

End TokensSpec.

(** ** The settings kept in the process *)

Module SettingsStoreSpec.
Import SettingsStore.

(** Loading after saving returns what was saved, also when the copy in
    the environment could not be written; loading twice returns the same
    settings and changes nothing the second time; and a new process that
    finds in the environment a text that parses loads the parsed settings
    and keeps them. *)
Theorem saved_settings_are_loaded (S : Type) (c : Codec S) :
  (forall settings st,
     let st1 := fst (save_settings c settings st) in
     load_settings c st1 = (st1, settings))
  /\ (forall st,
        load_settings c (fst (load_settings c st))
        = (fst (load_settings c st), snd (load_settings c st)))
  /\ (forall settings settings_json,
        settings_json <> "" ->
        parse c settings_json = Some settings ->
        load_settings c (mkStore None (Some settings_json))
        = (mkStore (Some settings) (Some settings_json), settings)).
Proof.
  split; [|split].
  - intros settings st. unfold save_settings.
    destruct (dump c settings); reflexivity.
  - intros st. unfold load_settings.
    destruct (GLOBAL_SETTINGS st) eqn:Hg; simpl; [rewrite Hg; reflexivity|].
    destruct (environ st) as [j|]; [|reflexivity].
    destruct (String.eqb j ""); [reflexivity|].
    destruct (parse c j); reflexivity.
  - intros settings j Hne Hparse. unfold load_settings. simpl.
    destruct (String.eqb j "") eqn:E; [apply String.eqb_eq in E; contradiction|].
    rewrite Hparse. reflexivity.
Qed.

Lemma saved_settings_are_loaded_witness :
  let c := mkCodec nat 10%nat
             (fun s => if String.eqb s "seven" then Some 7%nat else None)
             (fun n => if Nat.eqb n 7 then Some "seven" else None) in
  snd (load_settings c (fst (save_settings c 8%nat (mkStore None None)))) = 8%nat
  /\ load_settings c (mkStore None (Some "seven"))
     = (mkStore (Some 7%nat) (Some "seven"), 7%nat)
  /\ snd (load_settings c (mkStore None (Some "eight"))) = 10%nat.
Proof.
  intros c.
  destruct (saved_settings_are_loaded nat c) as (Hsave & _ & Hrestart).
  split; [rewrite Hsave; reflexivity|].
  split; [apply Hrestart; [discriminate|reflexivity]|reflexivity].
Defined.

End SettingsStoreSpec.

(** ** Updating the settings *)

Module SettingsServiceSpec.
Import SettingsService.

Section Fields.
Context {V : Type} (settings_dict : gmap string V).

Lemma assign_other (settings : gmap string V) (field : string * string)
    (attr : string) :
  attr <> snd field -> assign settings_dict settings field !! attr = settings !! attr.
Proof.
  intros Hne. unfold assign. destruct (settings_dict !! fst field); [|reflexivity].
  apply lookup_insert_ne. congruence.
Qed.

Lemma assign_all_other (fs : list (string * string)) (settings : gmap string V)
    (attr : string) :
  ~ In attr (List.map snd fs) ->
  fold_left (assign settings_dict) fs settings !! attr = settings !! attr.
Proof.
  revert settings. induction fs as [|field fs IH]; intros settings Hout; simpl.
  - reflexivity.
  - simpl in Hout. rewrite IH by tauto. apply assign_other. intros ->. tauto.
Qed.

Lemma assign_all_lookup (fs : list (string * string)) (settings : gmap string V)
    (key attr : string) :
  List.NoDup (List.map snd fs) ->
  In (key, attr) fs ->
  fold_left (assign settings_dict) fs settings !! attr
  = match settings_dict !! key with
    | Some v => Some v
    | None => settings !! attr
    end.
Proof.
  revert settings. induction fs as [|field fs IH]; intros settings Hnd Hin;
    [contradiction|].
  simpl in *. inversion Hnd as [|? ? Hfresh Hnd']; subst.
  destruct Hin as [->|Hin].
  - rewrite assign_all_other by exact Hfresh. unfold assign. simpl.
    destruct (settings_dict !! key); [apply lookup_insert_eq|reflexivity].
  - rewrite (IH _ Hnd' Hin). destruct (settings_dict !! key); [reflexivity|].
    apply assign_other. intros ->. apply Hfresh.
    apply in_map_iff. exists (key, snd field). tauto.
Qed.

End Fields.

Lemma attributes_distinct : List.NoDup (List.map snd fields).
Proof.
  repeat (constructor; [simpl; intuition discriminate|]). constructor.
Qed.

Lemma update_known {V : Type} (settings_dict settings : gmap string V)
    (key attr : string) :
  In (key, attr) fields ->
  _update_global_settings settings_dict settings !! attr
  = match settings_dict !! key with
    | Some v => Some v
    | None => settings !! attr
    end.
Proof. apply assign_all_lookup. exact attributes_distinct. Qed.

Lemma update_other {V : Type} (settings_dict settings : gmap string V)
    (attr : string) :
  ~ In attr (List.map snd fields) ->
  _update_global_settings settings_dict settings !! attr = settings !! attr.
Proof. apply assign_all_other. Qed.

(** [_update_global_settings] assigns exactly the ten attributes whose
    key is in the dictionary, each with the value under its key; an
    attribute whose key is missing and every attribute outside the ten
    (the pool size, for one) keep their value, whatever other keys the
    dictionary holds. *)
Theorem update_assigns_known_keys (V : Type) (settings_dict settings : gmap string V) :
  (forall key attr,
     In (key, attr) fields ->
     _update_global_settings settings_dict settings !! attr
     = match settings_dict !! key with
       | Some v => Some v
       | None => settings !! attr
       end)
  /\ (forall attr,
        ~ In attr (List.map snd fields) ->
        _update_global_settings settings_dict settings !! attr = settings !! attr).
Proof.
  split.
  - intros key attr. apply update_known.
  - intros attr. apply update_other.
Qed.

Lemma update_assigns_known_keys_witness :
  let settings : gmap string Z :=
    {[ "MAX_DEPTH" := 1; "BROWSER_POOL_SIZE" := 2 ]} in
  let settings_dict : gmap string Z :=
    {[ "max_depth" := 3; "browser_pool_size" := 9 ]} in
  _update_global_settings settings_dict settings !! "MAX_DEPTH" = Some 3
  /\ _update_global_settings settings_dict settings !! "BROWSER_POOL_SIZE" = Some 2.
Proof.
  intros settings settings_dict.
  destruct (update_assigns_known_keys Z settings_dict settings) as [Hknown Hother].
  split.
  - rewrite (Hknown "max_depth" "MAX_DEPTH"); [reflexivity|].
    simpl. tauto.
  - rewrite Hother; [reflexivity|]. simpl. intuition discriminate.
Defined.

Lemma update_lookup {V : Type} (settings_dict settings : gmap string V)
    (attr : string) :
  (exists key,
     In (key, attr) fields
     /\ _update_global_settings settings_dict settings !! attr
        = match settings_dict !! key with
          | Some v => Some v
          | None => settings !! attr
          end)
  \/ (~ In attr (List.map snd fields)
      /\ _update_global_settings settings_dict settings !! attr = settings !! attr).
Proof.
  destruct (in_dec string_dec attr (List.map snd fields)) as [Hin|Hout].
  - left. apply in_map_iff in Hin. destruct Hin as ([key a] & Ha & Hin).
    simpl in Ha. subst a. exists key. split; [exact Hin|].
    apply update_known, Hin.
  - right. split; [exact Hout|]. apply update_other, Hout.
Qed.

(** Updating twice with the same dictionary is the same as updating
    once, updating with an empty dictionary changes nothing, and two
    updates in a row are one update with both dictionaries, the second
    winning on the keys both give. *)
Theorem update_composes (V : Type) (d1 d2 settings : gmap string V) :
  _update_global_settings d1 (_update_global_settings d1 settings)
  = _update_global_settings d1 settings
  /\ _update_global_settings ∅ settings = settings
  /\ _update_global_settings d2 (_update_global_settings d1 settings)
     = _update_global_settings (d2 ∪ d1) settings.
Proof.
  split; [|split].
  - apply map_eq. intros attr.
    destruct (update_lookup d1 (_update_global_settings d1 settings) attr)
      as [(key & Hin & ->)|(Hout & ->)]; [|reflexivity].
    rewrite (update_known d1 settings key attr Hin).
    destruct (d1 !! key); reflexivity.
  - apply map_eq. intros attr.
    destruct (update_lookup (∅ : gmap string V) settings attr)
      as [(key & Hin & ->)|(Hout & ->)]; [|reflexivity].
    rewrite lookup_empty. reflexivity.
  - apply map_eq. intros attr.
    destruct (update_lookup d2 (_update_global_settings d1 settings) attr)
      as [(key & Hin & ->)|(Hout & ->)].
    + rewrite (update_known d1 settings key attr Hin).
      rewrite (update_known (d2 ∪ d1) settings key attr Hin).
      destruct (d2 !! key) as [v|] eqn:E2.
      * rewrite (lookup_union_Some_l d2 d1 key v E2). reflexivity.
      * rewrite (lookup_union_r d2 d1 key E2). reflexivity.
    + rewrite (update_other d1 settings attr Hout).
      rewrite (update_other (d2 ∪ d1) settings attr Hout).
      reflexivity.
Qed.

End SettingsServiceSpec.
